(** * SEAL-js: the record parser, range resolver, signature decoder and
      verification orchestrator of [src/seal.ts], embedded in Rocq.

    Conventions of the embedding.
    - A JavaScript string is a [string]: a sequence of code units below 256;
      [String.length] is [.length].
    - A JavaScript number is a [number]: the code only ever computes with
      doubles that hold an integer, an infinity or [NaN]. [parseInt] and the
      additions round as the engine does, to the nearest double. The sign of
      zero is not followed: the code never tells the two zeros apart.
    - The size of an asset and the offsets of its segments are byte offsets
      of a file, integers that a double holds exactly.
    - An object used as a dictionary is a [gmap] of its own properties; a
      read by a computed name also finds what every object inherits
      ([inherited]).
    - A promise is its settlement ([Pending], [Resolved], [Rejected]); an
      executor is a program of the monad [M], which threads the static fields
      of the [SEAL] class, the settlement of the promise being built and the
      trace of calls to collaborators.
    - The collaborators of [seal.ts] ([MediaAsset], [DoH], [Crypto], the
      helpers of [utils] and the platform's [crypto.subtle] and [TextEncoder])
      are variables of the section [Verifier]. The asynchronous ones answer
      (with a value or an error); [readChunks], [assembleBuffer],
      [getAlgorithmParameters], [mergeBuffer] and [getCryptoKeyLength]
      return.
    - What an inherited name leads to (a function of the engine, or a
      property of one) is not described further: it is passed on to the
      collaborators as [FromPrototype]. The prototype of objects is the
      one of the language, to which nothing was added. *)

From Stdlib Require Import ZArith Ascii String List Lia Bool.
From stdpp Require Import base option list strings gmap fin_maps.

Local Open Scope Z_scope.

(** ** JavaScript strings *)

Module JsString.

Definition chr (n : nat) : ascii := ascii_of_nat n.

Definition eqc (a b : ascii) : bool := Ascii.eqb a b.

(** Line terminators: the characters the regular-expression dot refuses. *)
Definition is_line_terminator (c : ascii) : bool :=
  eqc c (chr 10) || eqc c (chr 13).

(** White space and line terminators that [parseInt] skips. *)
Definition is_white_space (c : ascii) : bool :=
  let n := nat_of_ascii c in
  ((9 <=? n)%nat && (n <=? 13)%nat) || (n =? 32)%nat || (n =? 160)%nat.

Fixpoint take (n : nat) (s : string) : string :=
  match n, s with
  | S k, String c s' => String c (take k s')
  | _, _ => EmptyString
  end.

Fixpoint drop (n : nat) (s : string) : string :=
  match n, s with
  | S k, String _ s' => drop k s'
  | _, _ => s
  end.

(** [s.startsWith(p)] *)
Fixpoint starts_with (p s : string) : bool :=
  match p, s with
  | EmptyString, _ => true
  | String a p', String b s' => eqc a b && starts_with p' s'
  | String _ _, EmptyString => false
  end.

(** [s.includes(p)] *)
Fixpoint includes (p s : string) : bool :=
  starts_with p s ||
  match s with
  | EmptyString => false
  | String _ s' => includes p s'
  end.

(** [s.replace(p, r)] for a string pattern: the first occurrence only. *)
Fixpoint replace_first (p r s : string) : string :=
  if starts_with p s then r +:+ drop (String.length p) s
  else match s with
       | EmptyString => EmptyString
       | String c s' => String c (replace_first p r s')
       end.

(** [s.replace(/p/g, r)] for a literal, non-empty [p]: every occurrence,
    left to right, without overlap. [skip] counts the characters of the
    current occurrence still to be passed over. *)
Fixpoint replace_all_from (skip : nat) (p r s : string) : string :=
  match s with
  | EmptyString => EmptyString
  | String c s' =>
      match skip with
      | S k => replace_all_from k p r s'
      | O =>
          if starts_with p s
          then r +:+ replace_all_from (String.length p - 1) p r s'
          else String c (replace_all_from O p r s')
      end
  end.

Definition replace_all (p r s : string) : string := replace_all_from O p r s.

(** [s.split(sep)] for a one-character separator: never empty. *)
Fixpoint split (sep : ascii) (s : string) : list string :=
  match s with
  | EmptyString => [EmptyString]
  | String c s' =>
      if eqc c sep then EmptyString :: split sep s'
      else match split sep s' with
           | [] => [String c EmptyString]
           | w :: ws => String c w :: ws
           end
  end.

(** [s.charAt(s.length - 1)]: the last character, or the empty string. *)
Fixpoint last_char (s : string) : option ascii :=
  match s with
  | EmptyString => None
  | String c EmptyString => Some c
  | String _ s' => last_char s'
  end.

(** [s.substring(a, b)]: both indices are clamped to [0, length] and
    swapped when [a > b]. *)
Definition clamp (len i : Z) : nat := Z.to_nat (Z.max 0 (Z.min i len)).

Definition substring (a b : Z) (s : string) : string :=
  let len := Z.of_nat (String.length s) in
  let from := clamp len a in
  let to := clamp len b in
  let lo := Nat.min from to in
  let hi := Nat.max from to in
  take (hi - lo) (drop lo s).

(** A string is truthy when it is not empty. *)
Definition truthy (s : string) : bool :=
  match s with EmptyString => false | _ => true end.

End JsString.

(** A property read from an object: [undefined] is [None]; the value is
    truthy when it is a non-empty string. *)
Definition is_truthy (v : option string) : bool :=
  match v with
  | Some s => JsString.truthy s
  | None => false
  end.

(** ** JavaScript numbers, as far as the code uses them *)

(** [Num z] is the double whose value is the integer [z]. *)
Inductive number : Type :=
| NaN
| Num (z : Z)
| Infinity (negative : bool).

(** The double nearest to the integer [z]. Every integer up to 2^53 in
    magnitude is a double. Above, a double keeps the 53 leading bits: the
    rest is rounded to the nearest, a tie to the even mantissa, and what
    reaches 2^1024 is an infinity. *)
Definition nearest (z : Z) : number :=
  let m := Z.abs z in
  if m <=? 2 ^ 53 then Num z
  else
    let shift := Z.log2 m - 52 in
    let kept := Z.shiftr m shift in
    let rest := m - Z.shiftl kept shift in
    let half := Z.shiftl 1 (shift - 1) in
    let kept := if (half <? rest) || ((rest =? half) && Z.odd kept)
                then kept + 1 else kept in
    let r := Z.shiftl kept shift in
    if 2 ^ 1024 <=? r then Infinity (z <? 0) else Num (Z.sgn z * r).

Definition nneg (a : number) : number :=
  match a with
  | NaN => NaN
  | Num x => Num (- x)
  | Infinity negative => Infinity (negb negative)
  end.

(** [a + b]: the exact sum, rounded. *)
Definition nadd (a b : number) : number :=
  match a, b with
  | NaN, _ | _, NaN => NaN
  | Num x, Num y => nearest (x + y)
  | Infinity s, Num _ | Num _, Infinity s => Infinity s
  | Infinity s, Infinity s' => if Bool.eqb s s' then Infinity s else NaN
  end.

(** [a - b] *)
Definition nsub (a b : number) : number := nadd a (nneg b).

Module ParseInt.
Import JsString.

Definition digit_value (c : ascii) : option Z :=
  let n := nat_of_ascii c in
  if ((48 <=? n) && (n <=? 57))%nat then Some (Z.of_nat n - 48)
  else if ((97 <=? n) && (n <=? 122))%nat then Some (Z.of_nat n - 87)
  else if ((65 <=? n) && (n <=? 90))%nat then Some (Z.of_nat n - 55)
  else None.

(** The longest prefix of digits of the radix, read as a number. *)
Fixpoint digits (radix : Z) (acc : option Z) (s : string) : option Z :=
  match s with
  | EmptyString => acc
  | String c s' =>
      match digit_value c with
      | Some d =>
          if d <? radix
          then digits radix (Some (radix * default 0 acc + d)) s'
          else acc
      | None => acc
      end
  end.

Fixpoint skip_white_space (s : string) : string :=
  match s with
  | String c s' => if is_white_space c then skip_white_space s' else s
  | EmptyString => s
  end.

Definition unsigned (s : string) : option Z :=
  if starts_with "0x" s || starts_with "0X" s
  then digits 16 None (drop 2 s)
  else digits 10 None s.

(** [parseInt(s)] with no radix argument: the integer the digits denote,
    as a double. *)
Definition parseInt (s : string) : number :=
  let s := skip_white_space s in
  let '(sign, s) :=
    match s with
    | String "-" s' => (-1, s')
    | String "+" s' => (1, s')
    | _ => (1, s)
    end in
  match unsigned s with
  | Some n => nearest (sign * n)
  | None => NaN
  end.

End ParseInt.

(** The double quote, kept out of string literals. *)
Definition dquote : ascii := JsString.chr 34.
Definition q : string := String dquote EmptyString.


(** ** Errors *)

Inductive ErrorName : Type :=
| DNS_LOOKUP
| SEAL_RECORD_MISSING_PARAMETERS
| KEY_IMPORT_ERROR
| DIGEST_MISSING
| DIGEST_ERROR
| VALIDATION_MISSING_PARAMETERS
| SIGNATURE_VERIFY_ERROR
| SIGNATURE_MISSING
| SIGNATURE_FORMAT.

(** What the code throws or rejects with: its own [ValidationError], a plain
    [Error] (also what a collaborator fails with) and the engine's
    [TypeError] on a property read from [undefined]. *)
Inductive js_error : Type :=
| ValidationError (name : ErrorName) (message : string) (cause : option string)
| Error (message : string)
| TypeError.

Definition error_message (e : js_error) : string :=
  match e with
  | ValidationError _ m _ => m
  | Error m => m
  | TypeError => "Cannot read properties of undefined"
  end.

(** ** The asset, as [seal.ts] reads it

    [asset_size] and [signature_end] are byte offsets of a file: the
    subtractions of lines 211, 419, 528 and 577 on them are exact. *)

Record segment : Type := mkSegment {
  seg_string : string;
  signature_end : Z
}.

Record asset : Type := mkAsset {
  asset_name : string;
  asset_mime : string;
  asset_size : Z;
  asset_domain : string;
  seal_segments : option (list segment)
}.

Definition set_seal_segments (segs : list segment) (a : asset) : asset :=
  {| asset_name := asset_name a; asset_mime := asset_mime a;
     asset_size := asset_size a; asset_domain := asset_domain a;
     seal_segments := Some segs |}.

(** ** Record parser: [SEAL.parse] *)

Module Parser.
Import JsString.

(** [/<.{0,1}seal /] tried at the head of [s]: the length of the match.
    The optional character is greedy and is not a line terminator. *)
Definition open_tag (s : string) : option nat :=
  match s with
  | String "<" s1 =>
      match s1 with
      | String c s2 =>
          if negb (is_line_terminator c) && starts_with "seal " s2 then Some 7%nat
          else if starts_with "seal " s1 then Some 6%nat
          else None
      | EmptyString => None
      end
  | _ => None
  end.

(** [/\?{0,1}\/>/] tried at the head of [s]. *)
Definition close_tag (s : string) : option nat :=
  if starts_with "?/>" s then Some 3%nat
  else if starts_with "/>" s then Some 2%nat
  else None.

(** [s.replace(re, '')] for a pattern without the [g] flag: the leftmost
    match is removed. *)
Fixpoint remove_first_match (re : string -> option nat) (s : string) : string :=
  match re s with
  | Some n => drop n s
  | None =>
      match s with
      | EmptyString => EmptyString
      | String c s' => String c (remove_first_match re s')
      end
  end.

(** Lines 214-220. *)
Definition clean (s : string) : string :=
  let s := remove_first_match open_tag s in
  let s := remove_first_match close_tag s in
  let s := replace_all "&quot;" q s in
  let s := replace_first "<seal:seal>" EmptyString s in
  let s := replace_first "/&" EmptyString s in
  replace_first "&lt;seal " EmptyString s.

(** The tail of the parameter pattern, a lazy value and the closing quote:
    the value runs to the next double quote of the line. The number counts
    the characters consumed. *)
Fixpoint lazy_value (s : string) : option (string * nat) :=
  match s with
  | EmptyString => None
  | String c s' =>
      if eqc c dquote then Some (EmptyString, 1%nat)
      else if is_line_terminator c then None
      else match lazy_value s' with
           | Some (v, n) => Some (String c v, S n)
           | None => None
           end
  end.

(** The lazy key, the equals sign, the opening quote and the tail: the key
    first tries to stop here and grows by one character of the line when
    the rest does not match. *)
Fixpoint lazy_key (s : string) : option (string * string * nat) :=
  let here :=
    if starts_with ("=" +:+ q) s
    then match lazy_value (drop 2 s) with
         | Some (v, n) => Some (EmptyString, v, (2 + n)%nat)
         | None => None
         end
    else None in
  match here with
  | Some r => Some r
  | None =>
      match s with
      | EmptyString => None
      | String c s' =>
          if is_line_terminator c then None
          else match lazy_key s' with
               | Some (k, v, n) => Some (String c k, v, S n)
               | None => None
               end
      end
  end.

(** The parameter pattern of line 226 tried at the head of [s]: key, value
    and length of the match. The optional space is greedy. *)
Definition match_at (s : string) : option (string * string * nat) :=
  match s with
  | String " " s' =>
      match lazy_key s' with
      | Some (k, v, n) => Some (k, v, S n)
      | None => lazy_key s
      end
  | _ => lazy_key s
  end.

(** The [while ((match = parameterPattern.exec(...)) !== null)] loop: the
    successive matches, each search starting where the last match ended.
    [skip] counts the characters of the last match still to be passed. *)
Fixpoint exec_all (skip : nat) (s : string) : list (string * string) :=
  match s with
  | EmptyString => []
  | String _ s' =>
      match skip with
      | S k => exec_all k s'
      | O =>
          match match_at s with
          | Some (k, v, n) => (k, v) :: exec_all (n - 1) s'
          | None => exec_all O s'
          end
      end
  end.

Definition matches (s : string) : list (string * string) := exec_all O s.

(** [sealRecord[key] = value] on an object literal: an own property is
    written, except that a string assigned to [__proto__] is ignored. *)
Definition obj_set (k v : string) (o : gmap string string) : gmap string string :=
  if decide (k = "__proto__") then o else <[k := v]> o.

(** Lines 223-237: the object built from the matches, in order. *)
Definition collect (ms : list (string * string)) : gmap string string :=
  fold_left (fun o m => obj_set m.1 m.2 o) ms ∅.

Definition extract (seg : string) : gmap string string :=
  collect (matches (clean seg)).

(** Lines 239-241. *)
Definition default_da (o : gmap string string) : gmap string string :=
  if is_truthy (o !! "da") then o else <["da" := "sha256"]> o.

(** Lines 243-259: the [switch], a chain of strict comparisons. *)
Definition digest_name (da : option string) : string :=
  if bool_decide (da = Some "sha256") then "SHA-256"
  else if bool_decide (da = Some "sha384") then "SHA-384"
  else if bool_decide (da = Some "sha512") then "SHA-512"
  else if bool_decide (da = Some "sha1") then "SHA-1"
  else "SHA-256".

Definition normalise_da (o : gmap string string) : gmap string string :=
  let o := default_da o in
  <["da" := digest_name (o !! "da")]> o.

(** Line 262. *)
Definition complete (o : gmap string string) : bool :=
  is_truthy (o !! "seal") && is_truthy (o !! "d") && is_truthy (o !! "ka") && is_truthy (o !! "s").

Definition incomplete_error : js_error :=
  ValidationError SEAL_RECORD_MISSING_PARAMETERS "The SEAL record is incomplete" None.

(** Lines 209-212: the first segment's [signature_end] moves back by 5 when
    its text holds an [&quot;]. *)
Definition adjust (sg : segment) : segment :=
  if includes "&quot;" (seg_string sg)
  then mkSegment (seg_string sg) (signature_end sg - 5)
  else sg.

(** [SEAL.parse(asset)]: the asset as the call leaves it, and either the
    record stored in [SEAL.record] or the exception thrown. *)
Definition parse (a : asset) : asset * (js_error + gmap string string) :=
  match seal_segments a with
  | Some (sg :: rest) =>
      let sg' := adjust sg in
      let a' := set_seal_segments (sg' :: rest) a in
      let sealRecord := normalise_da (extract (seg_string sg')) in
      if complete sealRecord then (a', inr sealRecord)
      else (a', inl incomplete_error)
  | _ => (a, inl TypeError)
  end.

End Parser.

(** ** The static fields of the [SEAL] class *)

Definition bytes : Type := list Byte.byte.

(** A digest range as pushed on [digest_ranges]: the pair [[start, stop]]. *)
Definition range : Type := (number * number)%type.

Record sealValidation : Type := mkValidation {
  digest_ranges : option (list range);
  digest_summary : string;
  digest1 : option bytes;
  digest2 : option bytes;
  signature_date : option string;
  signature : option string;
  signature_bytes : bytes;
  signature_encoding : string;
  verbose : bool;
  doh_api : string
}.

Definition with_digest_ranges (x : option (list range)) (v : sealValidation) :=
  mkValidation x (digest_summary v) (digest1 v) (digest2 v) (signature_date v)
    (signature v) (signature_bytes v) (signature_encoding v) (verbose v) (doh_api v).
Definition with_digest_summary (x : string) (v : sealValidation) :=
  mkValidation (digest_ranges v) x (digest1 v) (digest2 v) (signature_date v)
    (signature v) (signature_bytes v) (signature_encoding v) (verbose v) (doh_api v).
Definition with_digest1 (x : option bytes) (v : sealValidation) :=
  mkValidation (digest_ranges v) (digest_summary v) x (digest2 v) (signature_date v)
    (signature v) (signature_bytes v) (signature_encoding v) (verbose v) (doh_api v).
Definition with_digest2 (x : option bytes) (v : sealValidation) :=
  mkValidation (digest_ranges v) (digest_summary v) (digest1 v) x (signature_date v)
    (signature v) (signature_bytes v) (signature_encoding v) (verbose v) (doh_api v).
Definition with_signature_date (x : option string) (v : sealValidation) :=
  mkValidation (digest_ranges v) (digest_summary v) (digest1 v) (digest2 v) x
    (signature v) (signature_bytes v) (signature_encoding v) (verbose v) (doh_api v).
Definition with_signature (x : option string) (v : sealValidation) :=
  mkValidation (digest_ranges v) (digest_summary v) (digest1 v) (digest2 v)
    (signature_date v) x (signature_bytes v) (signature_encoding v) (verbose v) (doh_api v).
Definition with_signature_bytes (x : bytes) (v : sealValidation) :=
  mkValidation (digest_ranges v) (digest_summary v) (digest1 v) (digest2 v)
    (signature_date v) (signature v) x (signature_encoding v) (verbose v) (doh_api v).
Definition with_signature_encoding (x : string) (v : sealValidation) :=
  mkValidation (digest_ranges v) (digest_summary v) (digest1 v) (digest2 v)
    (signature_date v) (signature v) (signature_bytes v) x (verbose v) (doh_api v).

(** Lines 293-299. *)
Definition fresh_validation (verbose : bool) : sealValidation :=
  mkValidation None EmptyString None None None None [] EmptyString verbose
    "https://mozilla.cloudflare-dns.com/dns-query".

(** One entry of [public_keys]: the object with the optional properties
    [rsa] and [ec]. *)
Record key_entry : Type := mkEntry {
  rsa : option string;
  ec : option string
}.

(** The property names every plain object has from [Object.prototype]. A
    read [o[name]] of such a name on an object without an own property of
    that name finds a function of the engine, or the prototype itself for
    [__proto__]: a value that is neither [undefined] nor falsy. *)
Definition prototype_names : list string :=
  ["constructor"; "hasOwnProperty"; "isPrototypeOf"; "propertyIsEnumerable";
   "toLocaleString"; "toString"; "valueOf"; "__defineGetter__";
   "__defineSetter__"; "__lookupGetter__"; "__lookupSetter__"; "__proto__"].

Definition inherited (name : string) : bool :=
  bool_decide (name ∈ prototype_names).

(** What [this.public_keys[d][ka]] can be: the own property [rsa] or [ec]
    of an entry, a string or [undefined]; or what the names [path], read in
    turn from a plain object, lead to when the first of them is inherited.
    The latter belongs to the engine and is not described further. *)
Inductive key_value : Type :=
| Stored (p : option string)
| FromPrototype (path : list string).

Record SEAL : Type := mkSEAL {
  public_keys : gmap string key_entry;
  record : option (gmap string string);
  validation : option sealValidation
}.

(** The class as the module is loaded. *)
Definition SEAL_initial : SEAL := mkSEAL ∅ None None.

(** A promise, as far as its consumer can tell. *)
Inductive settlement (A : Type) : Type :=
| Pending
| Resolved (a : A)
| Rejected (e : js_error).
Arguments Pending {A}.
Arguments Resolved {A} a.
Arguments Rejected {A} e.

(** [resolve] and [reject] settle a promise once; later calls do nothing. *)
Definition settle {A} (new old : settlement A) : settlement A :=
  match old with
  | Pending => new
  | _ => old
  end.

(** ** Range resolver: the [forEach] of [SEAL.digest], lines 490-597 *)

Module Ranges.
Import JsString ParseInt.

(** [parts[1] ? parseInt(parts[1]) : not taken] *)
Definition offset_of (parts : list string) : option number :=
  match parts with
  | _ :: p :: _ => if truthy p then Some (parseInt p) else None
  | _ => None
  end.

Definition first_of (parts : list string) : string :=
  match parts with
  | p :: _ => p
  | [] => EmptyString
  end.

(** Lines 497-512 and 550-565: the anchor text and the values of [add] and
    [sub] for one endpoint. Both splits are taken from the endpoint as
    written; the [+] split, tested last, names the anchor when it applies. *)
Definition endpoint (text : string) : string * number * number :=
  let sub := split "-" text in
  let add := split "+" text in
  let '(anchor, subv) :=
    match offset_of sub with
    | Some n => (first_of sub, n)
    | None => (text, Num 0)
    end in
  let '(anchor, addv) :=
    match offset_of add with
    | Some n => (first_of add, n)
    | None => (anchor, Num 0)
    end in
  (anchor, addv, subv).

(** What a [switch] on the anchor does. *)
Inductive anchor_result : Type :=
| Anchor (value : Z) (label : option string)
| BadAnchor
| Crash.

(** [asset.seal_segments[0].signature_end] *)
Definition first_signature_end (a : asset) : option Z :=
  match seal_segments a with
  | Some (sg :: _) => Some (signature_end sg)
  | _ => None
  end.

(** [asset.seal_segments[0].signature_end - this.record.s.length] *)
Definition signature_start (a : asset) (r : gmap string string) : option Z :=
  match first_signature_end a, r !! "s" with
  | Some e, Some s => Some (e - Z.of_nat (String.length s))
  | _, _ => None
  end.

Definition anchor_of (lF lf lS ls : string) (a : asset) (r : gmap string string)
    (anchor : string) : anchor_result :=
  match anchor with
  | "F" => Anchor 0 (Some lF)
  | "f" => Anchor (asset_size a) (Some lf)
  | "S" =>
      match signature_start a r with
      | Some z => Anchor z (Some lS)
      | None => Crash
      end
  | "s" =>
      match first_signature_end a with
      | Some z => Anchor z (Some ls)
      | None => Crash
      end
  | "P" => Anchor 0 None
  | "p" => Anchor 0 None
  | _ => BadAnchor
  end.

(** Lines 514-547. *)
Definition start_anchor : asset -> gmap string string -> string -> anchor_result :=
  anchor_of "Start of file" "End of file" "Start of signature" "End of signature".

(** Lines 567-592. *)
Definition stop_anchor : asset -> gmap string string -> string -> anchor_result :=
  anchor_of "Start of file" "End of file" "start of signature" "end of signature".

(** [start + add + sub], lines 548 and 594. *)
Definition coordinate (anchor : Z) (add sub : number) : number :=
  nadd (nadd (Num anchor) add) sub.

(** What the loop changes: [digest_ranges], [digest_summary], the two
    labels local to the executor, and the first error passed to [reject]. *)
Record loop_state : Type := mkLoop {
  ls_ranges : list range;
  ls_summary : string;
  show_range_start : option string;
  show_range_stop : option string;
  ls_rejected : option js_error
}.

Definition loop_reject (e : js_error) (st : loop_state) : loop_state :=
  mkLoop (ls_ranges st) (ls_summary st) (show_range_start st) (show_range_stop st)
    (match ls_rejected st with Some e0 => Some e0 | None => Some e end).

(** A label inside a template literal. *)
Definition show (l : option string) : string := default "undefined" l.

(** How one call of the [forEach] callback ends. *)
Inductive callback_end : Type :=
| Done
| Threw.

(** The callback of lines 492-597 on one range of the expression. *)
Definition range_step (a : asset) (r : gmap string string) (digest_range : string)
    (st : loop_state) : loop_state * callback_end :=
  let parts := split "~" digest_range in
  let start := first_of parts in
  let stop := parts !! 1%nat in
  let '(anchor, add, sub) := endpoint start in
  match start_anchor a r anchor with
  | Crash => (st, Threw)
  | BadAnchor => (loop_reject (Error "ranges start error") st, Done)
  | Anchor z label =>
      let show_start :=
        match show_range_start st, label with
        | None, Some l => Some l
        | old, _ => old
        end in
      let st := mkLoop (ls_ranges st) (ls_summary st) show_start
                  (show_range_stop st) (ls_rejected st) in
      let start := coordinate z add sub in
      match stop with
      | None => (st, Threw)
      | Some stop =>
          let '(anchor, add, sub) := endpoint stop in
          match stop_anchor a r anchor with
          | Crash => (st, Threw)
          | BadAnchor => (loop_reject (Error "ranges stop error") st, Done)
          | Anchor z label =>
              let show_stop :=
                match label with
                | Some l => Some l
                | None => show_range_stop st
                end in
              let stop := coordinate z add sub in
              (mkLoop (ls_ranges st ++ [(start, stop)])
                 (show (show_range_start st) +:+ " to " +:+ show show_stop)
                 (show_range_start st) show_stop (ls_rejected st), Done)
          end
      end
  end.

(** [digest_ranges.forEach(...)]: an exception in a callback ends the loop. *)
Fixpoint forEach (a : asset) (r : gmap string string) (digest_ranges : list string)
    (st : loop_state) : loop_state * callback_end :=
  match digest_ranges with
  | [] => (st, Done)
  | t :: ts =>
      match range_step a r t st with
      | (st', Done) => forEach a r ts st'
      | (st', Threw) => (st', Threw)
      end
  end.

(** The loop as [digest] runs it on the expression [b]. *)
Definition resolve (a : asset) (r : gmap string string) (b : string)
    (summary : string) : loop_state * callback_end :=
  forEach a r (split "," b) (mkLoop [] summary None None None).

End Ranges.

(** ** The verification pass *)

(** A DNS TXT record as [validateSig] reads it. *)
Record txt_record : Type := mkTxt {
  txt_ka : option string;
  txt_seal : option string;
  txt_p : option string
}.

(** The methods of [SEAL] a pass enters. *)
Inductive stage : Type :=
| StParse
| StDigest
| StDoubleDigest.

(** What a pass does that can be seen from outside: the methods it enters
    and its calls to the network and to the cryptographic primitives. *)
Inductive event : Type :=
| Enter (s : stage)
| DnsQuery (domain api : string)
| SubtleDigest (algorithm : option string) (data : bytes)
| ImportKey (key : key_value)
| VerifySignature (data sig : bytes).

Definition is_external_call (e : event) : bool :=
  match e with
  | Enter _ => false
  | _ => true
  end.

(** The verbose part of the result. Template strings, hexadecimal and date
    rendering are presentation: a field holds the data that is rendered. *)
Record verbose_report : Type := mkReport {
  filesize : Z;
  filedomain : string;
  report_doh_api : string;
  report_domain : option string;
  signed_on : option string;
  report_digest : bytes;
  double_digest : bytes;
  key_algorithm : option string * Z;
  digest_algorithm : option string;
  key_base64 : key_value;
  signed_bytes : list (number * number);
  spans : string;
  user : option string;
  report_copyright : option string;
  comment : option string
}.

Record result_summary : Type := mkSummary {
  message : string;
  valid : option bool;
  filename : option string;
  filemime : option string;
  report : option verbose_report
}.

(** How the executor of [validateSig] stops before its last line. *)
Inductive halt : Type :=
| Returned
| Uncaught (e : js_error)
| AwaitsForever.

Inductive step (A : Type) : Type :=
| Go (a : A)
| Halt (h : halt).
Arguments Go {A} a.
Arguments Halt {A} h.

Record world : Type := mkWorld {
  w_seal : SEAL;
  w_promise : settlement result_summary;
  w_trace : list event
}.

(** Programs of the executor. *)
Definition M (A : Type) : Type := world -> step A * world.

#[global] Instance M_ret : MRet M := fun A a w => (Go a, w).

#[global] Instance M_bind : MBind M := fun A B f m w =>
  match m w with
  | (Go a, w') => f a w'
  | (Halt h, w') => (Halt h, w')
  end.

Module Exec.

Definition stop {A} (h : halt) : M A := fun w => (Halt h, w).

Definition get_seal : M SEAL := fun w => (Go (w_seal w), w).

Definition put_seal (s : SEAL) : M unit :=
  fun w => (Go tt, mkWorld s (w_promise w) (w_trace w)).

Definition emit (es : list event) : M unit :=
  fun w => (Go tt, mkWorld (w_seal w) (w_promise w) (w_trace w ++ es)).

Definition resolve (r : result_summary) : M unit :=
  fun w => (Go tt, mkWorld (w_seal w) (settle (Resolved r) (w_promise w)) (w_trace w)).

Definition reject (e : js_error) : M unit :=
  fun w => (Go tt, mkWorld (w_seal w) (settle (Rejected e) (w_promise w)) (w_trace w)).

Definition put_public_keys (pk : gmap string key_entry) : M unit :=
  s ← get_seal; put_seal (mkSEAL pk (record s) (validation s)).

Definition put_record (r : gmap string string) : M unit :=
  s ← get_seal; put_seal (mkSEAL (public_keys s) (Some r) (validation s)).

Definition put_validation (v : sealValidation) : M unit :=
  s ← get_seal; put_seal (mkSEAL (public_keys s) (record s) (Some v)).

(** [this.validation] and [this.record] read for a property: a
    [TypeError] when the field is still [undefined]. *)
Definition get_validation : M sealValidation :=
  s ← get_seal;
  match validation s with
  | Some v => mret v
  | None => stop (Uncaught TypeError)
  end.

Definition get_record : M (gmap string string) :=
  s ← get_seal;
  match record s with
  | Some r => mret r
  | None => stop (Uncaught TypeError)
  end.

(** [await p.catch(handler)] on an already known settlement: a promise
    that never settles suspends the executor for good. *)
Definition await_catch (p : settlement unit) (handler : js_error -> M unit) : M unit :=
  match p with
  | Resolved _ => mret tt
  | Rejected e => handler e
  | Pending => stop AwaitsForever
  end.

End Exec.

(** Runs the primitives of the executor that stand at the head of the goal. *)
Ltac exec :=
  repeat (progress
    (unfold mbind, M_bind, mret, M_ret, Exec.put_validation, Exec.put_record,
       Exec.put_public_keys, Exec.get_validation, Exec.get_record, Exec.get_seal,
       Exec.put_seal, Exec.emit, Exec.resolve, Exec.reject, Exec.stop,
       Exec.await_catch;
     cbn [w_seal w_promise w_trace public_keys record validation fst snd app settle])).

Section Verifier.

(** *** Collaborators *)

(** [MediaAsset.readChunks] and [MediaAsset.assembleBuffer]. *)
Variable readChunks : asset -> asset.
Variable assembleBuffer : asset -> list range -> bytes.

(** [DoH.getDNSTXTRecords]: the promise rejects or resolves to records. *)
Variable getDNSTXTRecords : string -> string -> js_error + list txt_record.
Variable JSON_stringify : list txt_record -> string.

(** [crypto.subtle.digest] and the [Crypto] module. *)
Variable subtle_digest : option string -> bytes -> js_error + bytes.
Variable algorithm_parameters : Type.
Variable CryptoKey : Type.
Variable getAlgorithmParameters :
  key_value -> option string -> option string -> algorithm_parameters.
Variable importCryptoKey : key_value -> algorithm_parameters -> js_error + CryptoKey.
Variable verifySignature :
  bytes -> bytes -> CryptoKey -> algorithm_parameters -> js_error + bool.
Variable getCryptoKeyLength : CryptoKey -> Z.

(** The helpers of [utils] and [TextEncoder.encode]; the decoders and the
    date rendering may throw. *)
Variable hexToUint8Array : string -> js_error + bytes.
Variable base64ToUint8Array : string -> js_error + bytes.
Variable mergeBuffer : bytes -> bytes -> bytes.
Variable createDate_toISOString : string -> js_error + string.
Variable TextEncoder_encode : string -> bytes.

(** *** [SEAL.digest], lines 481-611

    [this.record] and [this.validation] are the arguments [r] and [v].
    The result is the validation record as the stage leaves it, the
    settlement of the returned promise and the calls made. When a callback
    has already rejected the promise, the digest is still requested, but
    its answer comes after the stages that follow have run: [digest1] is
    not set for them. *)
Definition digest (a : asset) (r : gmap string string) (v : sealValidation)
    : sealValidation * settlement unit * list event :=
  let v := with_digest_ranges (Some []) v in
  match r !! "b" with
  | Some b =>
      if JsString.truthy b then
        let '(st, ended) := Ranges.resolve a r b (digest_summary v) in
        let v := with_digest_summary (Ranges.ls_summary st)
                   (with_digest_ranges (Some (Ranges.ls_ranges st)) v) in
        let rejected : settlement unit :=
          match Ranges.ls_rejected st with
          | Some e => Rejected e
          | None => Pending
          end in
        match ended with
        | Ranges.Threw => (v, rejected, [])
        | Ranges.Done =>
            let data := assembleBuffer a (Ranges.ls_ranges st) in
            let call := [SubtleDigest (r !! "da") data] in
            match rejected with
            | Pending =>
                match subtle_digest (r !! "da") data with
                | inr d => (with_digest1 (Some d) v, Resolved tt, call)
                | inl e => (v, Rejected e, call)
                end
            | _ => (v, rejected, call)
            end
        end
      else (v, Pending, [])
  | None => (v, Pending, [])
  end.

(** *** [SEAL.doubleDigest], lines 622-702 *)

Definition is_encoding (format : string) : bool :=
  bool_decide (format = "base64") || bool_decide (format = "hex")
  || bool_decide (format = "HEX") || bool_decide (format = "bin").

(** Lines 643-650, with [s] the stored signature text [this.record.s]. *)
Definition split_date (s : string) (accuracy : number) (v : sealValidation)
    : sealValidation :=
  let len := Z.of_nat (String.length s) in
  match accuracy with
  | NaN =>
      with_signature_date (Some (JsString.substring 0 14 s))
        (with_signature (Some (JsString.substring 15 len s)) v)
  | Num n =>
      with_signature_date (Some (JsString.substring 0 (15 + n) s))
        (with_signature (Some (JsString.substring (16 + n) len s)) v)
  | Infinity negative =>
      let far := if negative then 0 else len in
      with_signature_date (Some (JsString.substring 0 far s))
        (with_signature (Some (JsString.substring far len s)) v)
  end.

(** [parseInt(format.charAt(format.length - 1))] *)
Definition accuracy_of (format : string) : number :=
  match JsString.last_char format with
  | Some c => ParseInt.parseInt (String c EmptyString)
  | None => NaN
  end.

(** The callback of lines 636-652 on one token of [sf]. *)
Definition apply_format (s : string) (v : sealValidation) (format : string)
    : sealValidation :=
  let v :=
    if is_encoding format then
      let v := with_signature_encoding format v in
      match signature v with
      | Some sg =>
          if JsString.truthy sg
          then with_signature
                 (Some (JsString.replace_first (format +:+ ":") EmptyString sg)) v
          else v
      | None => v
      end
    else v in
  if JsString.includes "date" format
  then split_date s (accuracy_of format) v
  else v.

(** Lines 625-656: the working signature text, the date and the encoding. *)
Definition signature_formats (r : gmap string string) : list string :=
  match r !! "sf" with
  | Some sf => if JsString.truthy sf then JsString.split ":" sf else []
  | None => []
  end.

Definition process_formats (r : gmap string string) (s : string)
    (v : sealValidation) : sealValidation :=
  let v := with_signature (Some s) v in
  match signature_formats r with
  | [] => with_signature_encoding "base64" v
  | formats => fold_left (apply_format s) formats v
  end.

(** Lines 657-663; [inl] is the exception the [catch] of line 664 takes. *)
Definition decode_signature (v : sealValidation) : js_error + sealValidation :=
  let text := default "undefined" (signature v) in
  let enc := signature_encoding v in
  if bool_decide (enc = "hex") || bool_decide (enc = "HEX") then
    match hexToUint8Array text with
    | inr b => inr (with_signature_bytes b v)
    | inl e => inl e
    end
  else if bool_decide (enc = "base64") then
    match base64ToUint8Array text with
    | inr b => inr (with_signature_bytes b v)
    | inl e => inl e
    end
  else inr v.

(** Lines 676-685. *)
Definition prepend (r : gmap string string) (v : sealValidation) : string :=
  let p :=
    if is_truthy (signature_date v)
    then default EmptyString (signature_date v) +:+ ":"
    else EmptyString in
  if is_truthy (r !! "id")
  then p +:+ default EmptyString (r !! "id") +:+ ":"
  else p.

(** Lines 676-700, run with the promise in the state [p]. *)
Definition build_digest2 (r : gmap string string) (v : sealValidation)
    (p : settlement unit) : sealValidation * settlement unit :=
  let prepend_buffer := TextEncoder_encode (prepend r v) in
  match digest1 v with
  | Some d => (with_digest2 (Some (mergeBuffer prepend_buffer d)) v, settle (Resolved tt) p)
  | None =>
      (v, settle (Rejected (ValidationError DIGEST_MISSING "The digest is missing" None)) p)
  end.

Definition doubleDigest (r : gmap string string) (v : sealValidation)
    : sealValidation * settlement unit :=
  match r !! "s" with
  | Some s =>
      if JsString.truthy s then
        match decode_signature (process_formats r s v) with
        | inr v' => build_digest2 r v' Pending
        | inl e => (process_formats r s v, Rejected e)
        end
      else
        build_digest2 r v
          (Rejected (ValidationError SIGNATURE_MISSING "The signature is missing" None))
  | None =>
      build_digest2 r v
        (Rejected (ValidationError SIGNATURE_MISSING "The signature is missing" None))
  end.

(** *** The key cache, lines 321-336 *)

(** The callback of the [forEach] over the TXT records. The loop is reached
    only when line 305 has found nothing under [domain]: [domain] is then
    not an inherited name, and [this.public_keys[domain]] is the entry
    stored, if any. *)
Definition store_key (domain : string) (pk : gmap string key_entry) (rec : txt_record)
    : gmap string key_entry :=
  if is_truthy (txt_ka rec) && is_truthy (txt_seal rec) && is_truthy (txt_p rec) then
    let pk := match pk !! domain with
              | Some _ => pk
              | None => <[domain := mkEntry None None]> pk
              end in
    let pk := if bool_decide (txt_ka rec = Some "rsa")
              then alter (fun e => mkEntry (txt_p rec) (ec e)) domain pk
              else pk in
    if bool_decide (txt_ka rec = Some "ec")
    then alter (fun e => mkEntry (rsa e) (txt_p rec)) domain pk
    else pk
  else pk.

Definition store_keys (domain : string) (TXTRecords : list txt_record)
    (pk : gmap string key_entry) : gmap string key_entry :=
  fold_left (store_key domain) TXTRecords pk.

(** A property name made of a value that may be [undefined]. *)
Definition property_name (v : option string) : string := default "undefined" v.

(** [entry[this.record.ka]] on an entry of the cache. *)
Definition cached_key (e : key_entry) (ka : option string) : key_value :=
  match ka with
  | Some "rsa" => Stored (rsa e)
  | Some "ec" => Stored (ec e)
  | _ => if inherited (property_name ka)
         then FromPrototype [property_name ka]
         else Stored None
  end.

(** The two properties that cannot be read from a function of the engine:
    their getter throws a [TypeError]. *)
Definition restricted (name : string) : bool :=
  bool_decide (name = "caller") || bool_decide (name = "arguments").

(** [this.public_keys[this.record.d][this.record.ka]]; [None] is a
    [TypeError]: that of a property read from [undefined], when nothing is
    found under the domain, and that of a restricted property read from one
    of the functions every object inherits (all the inherited names but
    [__proto__] lead to a function). *)
Definition stored_key (pk : gmap string key_entry) (r : gmap string string)
    : option key_value :=
  let d := property_name (r !! "d") in
  let ka := property_name (r !! "ka") in
  match pk !! d with
  | Some e => Some (cached_key e (r !! "ka"))
  | None =>
      if inherited d
      then if negb (bool_decide (d = "__proto__")) && restricted ka
           then None
           else Some (FromPrototype [d; ka])
      else None
  end.

(** *** [SEAL.validateSig], lines 282-470 *)

Import Exec.

(** The texts of the messages are given without their leading emoji. *)
Definition no_signature_summary : result_summary :=
  mkSummary "No SEAL signatures found." None None None None.

Definition dns_failed (r : gmap string string) (e : js_error) : js_error :=
  ValidationError DNS_LOOKUP
    ("Querying DoH " +:+ property_name (r !! "d") +:+ " DNS for a TXT record failed")
    (Some (error_message e)).

Definition key_not_found (TXTRecords : list txt_record) : js_error :=
  ValidationError DNS_LOOKUP "Public key not found or corrupted"
    (Some (JSON_stringify TXTRecords)).

(** Lines 303-348. The test of line 305 reads [this.public_keys[domain]]:
    it finds an entry stored for the domain, and also what a domain named
    like an inherited property leads to; in both cases no query is made. *)
Definition resolve_key (r : gmap string string) (v : sealValidation) : M unit :=
  let domain := property_name (r !! "d") in
  s ← get_seal;
  match public_keys s !! domain with
  | Some _ => mret tt
  | None =>
      if inherited domain then mret tt else
      emit [DnsQuery domain (doh_api v)];;
      match getDNSTXTRecords domain (doh_api v) with
      | inl e => reject (dns_failed r e);; stop Returned
      | inr TXTRecords =>
          let pk := store_keys domain TXTRecords (public_keys s) in
          put_public_keys pk;;
          match pk !! domain with
          | Some _ => mret tt
          | None => reject (key_not_found TXTRecords);; stop Returned
          end
      end
  end.

(** Lines 350-358. *)
Definition run_digest (a : asset) : M unit :=
  r ← get_record;
  v ← get_validation;
  emit [Enter StDigest];;
  let '(v', p, calls) := digest a r v in
  put_validation v';;
  emit calls;;
  await_catch p (fun e =>
    reject (ValidationError DIGEST_ERROR "Digest can not be processed"
              (Some (error_message e)))).

(** Lines 359-367. *)
Definition run_doubleDigest : M unit :=
  r ← get_record;
  v ← get_validation;
  emit [Enter StDoubleDigest];;
  let '(v', p) := doubleDigest r v in
  put_validation v';;
  await_catch p (fun e =>
    reject (ValidationError DIGEST_ERROR "doubleDigest can not be processed"
              (Some (error_message e)))).

(** Lines 418-459. *)
Definition verbose_part (a : asset) (r : gmap string string) (key : key_value)
    (cryptoKey : CryptoKey) (d2 : bytes) : M verbose_report :=
  v ← get_validation;
  date ← (if is_truthy (signature_date v) then
            match createDate_toISOString (default EmptyString (signature_date v)) with
            | inr iso => mret (Some iso)
            | inl e => stop (Uncaught e)
            end
          else mret None);
  d1 ← (match digest1 v with
        | Some d => mret d
        | None => stop (Uncaught TypeError)
        end);
  emit [SubtleDigest (r !! "da") d2];;
  dd ← (match subtle_digest (r !! "da") d2 with
        | inr d => mret d
        | inl e => stop (Uncaught e)
        end);
  put_validation (with_digest2 (Some dd) v);;
  mret (mkReport (asset_size a - 1) (asset_domain a) (doh_api v) (r !! "d") date
          d1 dd (r !! "ka", getCryptoKeyLength cryptoKey) (r !! "da") key
          (map (fun rg => (rg.1, nsub rg.2 (Num 1))) (default [] (digest_ranges v)))
          (digest_summary v) (r !! "id")
          (if is_truthy (r !! "copyright") then r !! "copyright" else None)
          (if is_truthy (r !! "info") then r !! "info" else None)).

(** Lines 369-468. *)
Definition verify (a : asset) : M unit :=
  r ← get_record;
  s ← get_seal;
  key ← (match stored_key (public_keys s) r with
         | Some k => mret k
         | None => stop (Uncaught TypeError)
         end);
  let algorithmParameters := getAlgorithmParameters key (r !! "da") (r !! "ka") in
  emit [ImportKey key];;
  cryptoKey ← (match importCryptoKey key algorithmParameters with
               | inr k => mret (Some k)
               | inl e =>
                   reject (ValidationError KEY_IMPORT_ERROR
                             "crypto.subtle.importKey couldn't process the data"
                             (Some (error_message e)));;
                   mret None
               end);
  v ← get_validation;
  match digest2 v, is_truthy (signature v), cryptoKey with
  | Some d2, true, Some k =>
      emit [VerifySignature d2 (signature_bytes v)];;
      result ← (match verifySignature d2 (signature_bytes v) k algorithmParameters with
                | inr b => mret (Some b)
                | inl e =>
                    reject (ValidationError SIGNATURE_VERIFY_ERROR
                              "The signature can not be verified"
                              (Some (error_message e)));;
                    mret None
                end);
      let is_valid := bool_decide (result = Some true) in
      rep ← (if verbose v
             then rp ← verbose_part a r key k d2; mret (Some rp)
             else mret None);
      resolve (mkSummary
                 (if is_valid then "SEAL record #1 is valid."
                  else "SEAL record #1 is NOT valid.")
                 (Some is_valid) (Some (asset_name a)) (Some (asset_mime a)) rep)
  | _, _, _ =>
      reject (ValidationError VALIDATION_MISSING_PARAMETERS
                "Double Digest or Signature is missing" None)
  end.

(** The executor of the promise [validateSig] returns. An exception that
    leaves [SEAL.parse] leaves the executor, an [async] function, too: it
    settles nothing. *)
Definition validateSig_executor (a : asset) (verbose : bool) : M unit :=
  let a := readChunks a in
  match seal_segments a with
  | None => resolve no_signature_summary;; stop Returned
  | Some _ =>
      put_validation (fresh_validation verbose);;
      emit [Enter StParse];;
      let '(a, parsed) := Parser.parse a in
      match parsed with
      | inl e => stop (Uncaught e)
      | inr r =>
          put_record r;;
          resolve_key r (fresh_validation verbose);;
          run_digest a;;
          run_doubleDigest;;
          verify a
      end
  end.

(** One call of [validateSig] on the class in the state [s]: how the
    executor ended, and the world it leaves. The caller holds
    [w_promise]. *)
Definition validateSig (a : asset) (verbose : bool) (s : SEAL) : step unit * world :=
  validateSig_executor a verbose (mkWorld s Pending []).

Definition outcome (a : asset) (verbose : bool) (s : SEAL) : settlement result_summary :=
  w_promise (validateSig a verbose s).2.

Definition trace (a : asset) (verbose : bool) (s : SEAL) : list event :=
  w_trace (validateSig a verbose s).2.

End Verifier.

(** ** Concrete collaborators and assets for the examples *)

Module Fixture.

(** An attribute as it is written in a segment. *)
Definition attr (k v : string) : string := k +:+ "=" +:+ q +:+ v +:+ q.

Fixpoint spaced (attrs : list string) : string :=
  match attrs with
  | [] => EmptyString
  | [x] => x
  | x :: rest => x +:+ " " +:+ spaced rest
  end.

Definition seal_tag (attrs : list string) : string :=
  "<seal " +:+ spaced attrs +:+ "/>".

Definition asset_of (size : Z) (text : string) (sig_end : Z) : asset :=
  mkAsset "photo.jpg" "image/jpeg" size "localhost" (Some [mkSegment text sig_end]).

(** The DNS answers with the records [recs] for every domain. *)
Definition dns (recs : list txt_record) (domain api : string)
    : js_error + list txt_record := inr recs.

Definition rsa_record (p : string) : txt_record :=
  mkTxt (Some "rsa") (Some "1") (Some p).

(** Primitives that always succeed: the digest of [data] is [data], a key
    is imported when there is one, every signature verifies. *)
Definition import_key (k : key_value) (_ : unit) : js_error + string :=
  match k with
  | Stored (Some k) => inr k
  | _ => inl (Error "no key")
  end.

Definition text_bytes (s : string) : bytes := String.list_byte_of_string s.

Definition read_chunks (a : asset) : asset := a.
Definition assemble (_ : asset) (_ : list range) : bytes := [].
Definition stringify (_ : list txt_record) : string := "[]".
Definition digest_of (_ : option string) (data : bytes) : js_error + bytes := inr data.
Definition parameters (_ : key_value) (_ _ : option string) : unit := tt.
Definition verify_ok (_ _ : bytes) (_ : string) (_ : unit) : js_error + bool := inr true.
Definition key_length (_ : string) : Z := 2048.
Definition decode (s : string) : js_error + bytes := inr (text_bytes s).
Definition merge (x y : bytes) : bytes := x ++ y.
Definition iso_date (s : string) : js_error + string := inr s.

Definition run (recs : list txt_record) (a : asset) (verbose : bool) (s : SEAL)
    : step unit * world :=
  validateSig read_chunks assemble (dns recs) stringify digest_of unit string
    parameters import_key verify_ok key_length decode decode merge iso_date
    text_bytes a verbose s.

Definition promise_of (x : step unit * world) : settlement result_summary :=
  w_promise x.2.

Definition trace_of (x : step unit * world) : list event := w_trace x.2.

(** A complete record with the byte range [b]. *)
Definition with_range (b : string) : asset :=
  asset_of 100
    (seal_tag [attr "seal" "1"; attr "d" "example.com"; attr "ka" "rsa";
               attr "b" b; attr "s" "abcd"]) 60.

(** A complete record without [b]. *)
Definition without_range : asset :=
  asset_of 100
    (seal_tag [attr "seal" "1"; attr "d" "example.com"; attr "ka" "rsa";
               attr "s" "abcd"]) 60.

(** A record without the attribute [seal]. *)
Definition without_seal : asset :=
  asset_of 100
    (seal_tag [attr "d" "example.com"; attr "ka" "rsa"; attr "b" "F~S,s~f";
               attr "s" "abcd"]) 60.

(** The record of [with_range "F~S,s~f"] written with entity-escaped
    quotes. *)
Definition escaped : asset :=
  asset_of 100
    ("<seal seal=&quot;1&quot; d=&quot;example.com&quot; ka=&quot;rsa&quot;"
     +:+ " b=&quot;F~S,s~f&quot; s=&quot;abcd&quot;/>") 60.


(** A record whose [da] is written in upper case. *)
Definition upper_da : asset :=
  asset_of 100
    (seal_tag [attr "seal" "1"; attr "d" "example.com"; attr "ka" "rsa";
               attr "da" "SHA512"; attr "b" "F~S,s~f"; attr "s" "abcd"]) 60.

(** An asset without any record segment. *)
Definition unsigned : asset :=
  mkAsset "photo.jpg" "image/jpeg" 100 "localhost" None.

(** The class with the key of [example.com] already in the cache. *)
Definition cached : SEAL :=
  mkSEAL (<["example.com" := mkEntry (Some "KEY") None]> ∅) None None.

(** The first segment of an asset of this module. *)
Definition segment_of (a : asset) : segment :=
  match seal_segments a with
  | Some (sg :: _) => sg
  | _ => mkSegment EmptyString 0
  end.

(** The record [parse] stores for an asset of this module. *)
Definition record_of (a : asset) : gmap string string :=
  Parser.normalise_da (Parser.extract (seg_string (segment_of a))).

End Fixture.

(** ** Vocabulary of the statements *)

Module Spec.


(** A usable TXT record: the test of line 323. *)
Definition usable (rec : txt_record) : bool :=
  is_truthy (txt_ka rec) && is_truthy (txt_seal rec) && is_truthy (txt_p rec).

(** The keys of the usable records of the algorithm [alg], in the order of
    the answer. *)
Definition key_of (alg : string) (rec : txt_record) : option string :=
  if usable rec && bool_decide (txt_ka rec = Some alg) then txt_p rec else None.

Definition keys_for (alg : string) (recs : list txt_record) : list string :=
  omap (key_of alg) recs.

(** A later key replaces an earlier one. *)
Definition replaced_by (new old : option string) : option string :=
  match new with
  | Some p => Some p
  | None => old
  end.

(** The entry after one usable record. *)
Definition updated (rec : txt_record) (e : key_entry) : key_entry :=
  mkEntry (replaced_by (key_of "rsa" rec) (rsa e))
          (replaced_by (key_of "ec" rec) (ec e)).

(** ASCII lower case, for the reading of [da] that ignores case. *)
Definition lower (c : ascii) : ascii :=
  let n := nat_of_ascii c in
  if ((65 <=? n) && (n <=? 90))%nat then ascii_of_nat (n + 32) else c.

Fixpoint lower_case (s : string) : string :=
  match s with
  | EmptyString => EmptyString
  | String c s' => String (lower c) (lower_case s')
  end.

(** The digest algorithm as the specification words it: the token is
    mapped without regard to case. *)
Definition digest_algorithm_ignoring_case (da : option string) : string :=
  Parser.digest_name (lower_case <$> da).

(** A byte range as the specification wants it: two non-negative
    coordinates, the end not below the start. *)
Definition well_formed (rg : range) : Prop :=
  match rg with
  | (Num a, Num b) => 0 <= a /\ a <= b
  | _ => False
  end.

(** The range the callback pushes for one range of the expression, if it
    pushes one. *)
Definition range_of (a : asset) (r : gmap string string) (digest_range : string)
    : option range :=
  head (Ranges.ls_ranges
          (Ranges.range_step a r digest_range
             (Ranges.mkLoop [] EmptyString None None None)).1).

(** How the pass comes by an entry for the domain of the record [r]: from
    the cache, or by one DNS query that brings a usable record. The result is
    the cache as the pass then holds it and the query made; [None] when the
    pass ends on a DNS error instead, and when the domain is named like an
    inherited property: the pass then goes on without an entry and without a
    query. *)
Definition key_resolution (dns : string -> string -> js_error + list txt_record)
    (s : SEAL) (r : gmap string string) (api : string)
    : option (gmap string key_entry * list event) :=
  let d := property_name (r !! "d") in
  match public_keys s !! d with
  | Some _ => Some (public_keys s, [])
  | None =>
      if inherited d then None else
      match dns d api with
      | inr recs =>
          match store_keys d recs (public_keys s) !! d with
          | Some _ => Some (store_keys d recs (public_keys s), [DnsQuery d api])
          | None => None
          end
      | inl _ => None
      end
  end.

(** The character [c] does not occur in [s]. *)
Fixpoint free_of (c : ascii) (s : string) : bool :=
  match s with
  | EmptyString => true
  | String x s' => negb (JsString.eqc x c) && free_of c s'
  end.

(** The decimal digit [n] as a character. *)
Definition digit (n : Z) : ascii := ascii_of_nat (48 + Z.to_nat n).

(** An integer that a double holds as it is. *)
Definition exact (z : Z) : Prop := Z.abs z <= 2 ^ 53.

End Spec.

(** ** Further vocabulary: written segments, settled passes *)

Module Cover.

(** No line terminator occurs in [s]. *)
Fixpoint one_line (s : string) : bool :=
  match s with
  | EmptyString => true
  | String c s' => negb (JsString.is_line_terminator c) && one_line s'
  end.

(** The characters that the cleaning of lines 214-220 looks for. *)
Definition markup_free (s : string) : bool :=
  Spec.free_of "&" s && Spec.free_of "<" s && Spec.free_of ">" s.

(** A key and a value that can be written between the quotes of an
    attribute as they are. *)
Definition plain_key (k : string) : bool :=
  Spec.free_of dquote k && one_line k && Spec.free_of " " k && markup_free k.

Definition plain_value (v : string) : bool :=
  Spec.free_of dquote v && one_line v && markup_free v.

Definition plain (kv : string * string) : bool :=
  plain_key kv.1 && plain_value kv.2.

(** The text of an attribute and of a record segment that carries the
    attributes [kvs], one space between two of them. *)
Definition attribute (kv : string * string) : string :=
  kv.1 +:+ "=" +:+ q +:+ kv.2 +:+ q.

Fixpoint attributes (kvs : list (string * string)) : string :=
  match kvs with
  | [] => EmptyString
  | [kv] => attribute kv
  | kv :: rest => attribute kv +:+ " " +:+ attributes rest
  end.

Definition written (kvs : list (string * string)) : string :=
  "<seal " +:+ attributes kvs +:+ "/>".

(** The last token of [sf] that names an encoding. *)
Definition last_encoding (formats : list string) : option string :=
  last (filter (fun f => is_encoding f = true) formats).

(** A decimal digit. *)
Definition is_digit (c : ascii) : bool :=
  let n := nat_of_ascii c in ((48 <=? n) && (n <=? 57))%nat.

(** The two errors [doubleDigest] makes itself. *)
Definition signature_missing : js_error :=
  ValidationError SIGNATURE_MISSING "The signature is missing" None.

Definition digest_missing : js_error :=
  ValidationError DIGEST_MISSING "The digest is missing" None.

Definition is_dns_query (e : event) : bool :=
  match e with
  | DnsQuery _ _ => true
  | _ => false
  end.

(** The events [evs] hold no DNS query. *)
Definition without_dns (evs : list event) : bool :=
  forallb (fun e => negb (is_dns_query e)) evs.

Section Lawful.

Variable algorithm_parameters : Type.
Variable CryptoKey : Type.
Variable verifySignature :
  bytes -> bytes -> CryptoKey -> algorithm_parameters -> js_error + bool.

(** The result [sm] states what [verifySignature] answered in a call that
    the trace [tr] records. *)
Definition verified (sm : result_summary) (tr : list event) : Prop :=
  exists (b : bool) (d2 sb : bytes) (k : CryptoKey) (p : algorithm_parameters),
    valid sm = Some b
    /\ verifySignature d2 sb k p = inr b
    /\ VerifySignature d2 sb ∈ tr.

(** What the stages after the key resolution may do to the world: they
    leave the key cache alone, make no DNS query, and settle the promise at
    most by rejecting it or by resolving it with a verified result. *)
Definition lawful (w w' : world) : Prop :=
  public_keys (w_seal w') = public_keys (w_seal w)
  /\ (exists evs, w_trace w' = w_trace w ++ evs /\ without_dns evs = true)
  /\ (w_promise w' = w_promise w
      \/ (exists e, w_promise w' = Rejected e)
      \/ (exists sm, w_promise w' = Resolved sm /\ verified sm (w_trace w'))).

End Lawful.

(** A pass with the collaborators of [Fixture], the DNS apart. *)
Definition pass_with (dns : string -> string -> js_error + list txt_record)
    (a : asset) (verbose : bool) (s : SEAL) : step unit * world :=
  validateSig Fixture.read_chunks Fixture.assemble dns Fixture.stringify
    Fixture.digest_of unit string Fixture.parameters Fixture.import_key
    Fixture.verify_ok Fixture.key_length Fixture.decode Fixture.decode Fixture.merge
    Fixture.iso_date Fixture.text_bytes a verbose s.

(** A DNS that cannot be reached. *)
Definition dns_down (domain api : string) : js_error + list txt_record :=
  inl (Error "network unreachable").

(** An asset whose list of record segments is empty. *)
Definition no_segments : asset :=
  mkAsset "photo.jpg" "image/jpeg" 100 "localhost" (Some []).

End Cover.

(** Closes the goal [lawful w w'] for two explicit worlds. *)
Ltac lawful_leaf :=
  split; [reflexivity |];
  split;
  [ first
      [ exists []; split; [symmetry; apply app_nil_r | reflexivity]
      | eexists; split; [rewrite <- ?app_assoc; reflexivity | reflexivity] ]
  | first
      [ left; reflexivity
      | right; left; eexists; reflexivity
      | right; right; eexists; split; [reflexivity |];
        do 5 eexists; split; [reflexivity |];
        split; [eassumption |]; set_solver ] ].

(** * Properties *)

(** ** The model at work *)

Example parseInt_decimal : ParseInt.parseInt "20" = Num 20.
Proof. reflexivity. Qed.

Example parseInt_stops_at_junk :
  ParseInt.parseInt "4x" = Num 4 /\ ParseInt.parseInt "x" = NaN.
Proof. split; reflexivity. Qed.

Example parseInt_hexadecimal : ParseInt.parseInt " -0x1f" = Num (-31).
Proof. reflexivity. Qed.

Example split_ranges : JsString.split "," "F~S,s~f" = ["F~S"; "s~f"].
Proof. reflexivity. Qed.

Example matches_of_a_tag :
  Parser.matches
    (Parser.clean (Fixture.seal_tag [Fixture.attr "seal" "1"; Fixture.attr "s" "abcd"]))
    = [("seal", "1"); ("s", "abcd")].
Proof. vm_compute. reflexivity. Qed.

(** An asset without a record segment: the informational result, and
    nothing is called. *)
Example no_signature :
  let x := Fixture.run [] Fixture.unsigned false SEAL_initial in
  w_promise x.2 = Resolved (mkSummary "No SEAL signatures found." None None None None)
  /\ w_trace x.2 = [].
Proof. vm_compute. repeat split. Qed.

(** A pass that goes through: every stage once, in order. *)
Example valid_pass :
  let x := Fixture.run [Fixture.rsa_record "KEY"] (Fixture.with_range "F~S,s~f")
             false SEAL_initial in
  w_promise x.2
    = Resolved (mkSummary "SEAL record #1 is valid." (Some true) (Some "photo.jpg")
                  (Some "image/jpeg") None)
  /\ w_trace x.2
     = [Enter StParse;
        DnsQuery "example.com" "https://mozilla.cloudflare-dns.com/dns-query";
        Enter StDigest; SubtleDigest (Some "SHA-256") [];
        Enter StDoubleDigest; ImportKey (Stored (Some "KEY"));
        VerifySignature [] (Fixture.text_bytes "abcd")]
  /\ (validation (w_seal x.2) ≫= digest_ranges) = Some [(Num 0, Num 56); (Num 60, Num 100)].
Proof. vm_compute. repeat split. Qed.

(** A second pass on the class the first one left finds the key in the
    cache and makes no DNS query. *)
Example second_pass_uses_the_cache :
  let first := Fixture.run [Fixture.rsa_record "KEY"] (Fixture.with_range "F~S,s~f")
                 false SEAL_initial in
  let second := Fixture.run [] (Fixture.with_range "F~S,s~f") false (w_seal first.2) in
  w_trace second.2
    = [Enter StParse; Enter StDigest; SubtleDigest (Some "SHA-256") [];
       Enter StDoubleDigest; ImportKey (Stored (Some "KEY"));
       VerifySignature [] (Fixture.text_bytes "abcd")].
Proof. vm_compute. reflexivity. Qed.

(** ** Numbers *)

Lemma nearest_exact (z : Z) : Spec.exact z -> nearest z = Num z.
Proof.
  unfold Spec.exact, nearest. intros H.
  rewrite (proj2 (Z.leb_le _ _) H). reflexivity.
Qed.

Lemma nadd_exact (x y : Z) : Spec.exact (x + y) -> nadd (Num x) (Num y) = Num (x + y).
Proof. intros H. unfold nadd. apply nearest_exact, H. Qed.

(** From 2^53 on not every integer is a double: the odd ones are rounded to
    an even neighbour, and what reaches 2^1024 is an infinity. *)
Example nearest_rounds :
  ParseInt.parseInt "9007199254740993" = Num 9007199254740992
  /\ ParseInt.parseInt "9007199254740995" = Num 9007199254740996
  /\ nadd (Num (2 ^ 53)) (Num 1) = Num (2 ^ 53)
  /\ nearest (2 ^ 1024 - 2 ^ 970 - 1) = Num (2 ^ 1024 - 2 ^ 971)
  /\ nearest (- (2 ^ 1024 - 2 ^ 970)) = Infinity true.
Proof. vm_compute. repeat split. Qed.

(** A record whose domain is named like an inherited property: the test of
    line 305 finds the function every object inherits, no DNS query is made
    and nothing is stored; what is handed to the key import is a property of
    that function. *)
Example inherited_domain_is_not_queried :
  let a := Fixture.asset_of 100
             (Fixture.seal_tag
                [Fixture.attr "seal" "1"; Fixture.attr "d" "constructor";
                 Fixture.attr "ka" "rsa"; Fixture.attr "b" "F~S,s~f";
                 Fixture.attr "s" "abcd"]) 60 in
  let x := Fixture.run [Fixture.rsa_record "KEY"] a false SEAL_initial in
  w_promise x.2
    = Rejected (ValidationError KEY_IMPORT_ERROR
                  "crypto.subtle.importKey couldn't process the data" (Some "no key"))
  /\ w_trace x.2
     = [Enter StParse; Enter StDigest; SubtleDigest (Some "SHA-256") [];
        Enter StDoubleDigest; ImportKey (FromPrototype ["constructor"; "rsa"])]
  /\ public_keys (w_seal x.2) = ∅.
Proof. vm_compute. repeat split. Qed.

(** An entry of the cache read under a key algorithm named like an
    inherited property, and the key read when the domain is such a name. *)
Example inherited_key_algorithm :
  cached_key (mkEntry (Some "KEY") None) (Some "toString") = FromPrototype ["toString"]
  /\ cached_key (mkEntry (Some "KEY") None) (Some "ec") = Stored None
  /\ cached_key (mkEntry (Some "KEY") None) (Some "dsa") = Stored None
  /\ stored_key ∅ (<["d" := "toString"]> (<["ka" := "rsa"]> ∅))
     = Some (FromPrototype ["toString"; "rsa"])
  /\ stored_key ∅ (<["d" := "toString"]> (<["ka" := "caller"]> ∅)) = None
  /\ stored_key ∅ (<["d" := "example.com"]> (<["ka" := "rsa"]> ∅)) = None.
Proof. vm_compute. repeat split. Qed.

(** ** Strings *)

Section StringFacts.
Import JsString.

Lemma take_all (n : nat) (s : string) :
  (String.length s <= n)%nat -> take n s = s.
Proof.
  revert n; induction s as [|c s IH]; intros [|n] Hn; simpl in *; try reflexivity.
  - lia.
  - rewrite IH by lia. reflexivity.
Qed.

Lemma drop_all (n : nat) (s : string) :
  (String.length s <= n)%nat -> drop n s = EmptyString.
Proof.
  revert n; induction s as [|c s IH]; intros [|n] Hn; simpl in *; try reflexivity.
  - lia.
  - apply IH. lia.
Qed.

Lemma length_drop (n : nat) (s : string) :
  String.length (drop n s) = (String.length s - n)%nat.
Proof.
  revert n; induction s as [|c s IH]; intros [|n]; simpl; try reflexivity.
  apply IH.
Qed.

(** [s.substring(0, k)] is the first [k] characters of [s]. *)
Lemma substring_head (k : Z) (s : string) :
  0 <= k -> substring 0 k s = take (Z.to_nat k) s.
Proof.
  intros Hk. unfold substring, clamp.
  set (len := String.length s).
  replace (Z.to_nat (Z.max 0 (Z.min 0 (Z.of_nat len)))) with 0%nat by lia.
  rewrite Nat.min_0_l, Nat.max_0_l, Nat.sub_0_r. simpl drop.
  destruct (Z_le_gt_dec k (Z.of_nat len)) as [Hle|Hgt].
  - f_equal. lia.
  - rewrite !take_all; [reflexivity | fold len; lia | fold len; lia].
Qed.

(** [s.substring(k, s.length)] is [s] without its first [k] characters. *)
Lemma substring_tail (k : Z) (s : string) :
  0 <= k -> substring k (Z.of_nat (String.length s)) s = drop (Z.to_nat k) s.
Proof.
  intros Hk. unfold substring, clamp.
  set (len := String.length s).
  replace (Z.to_nat (Z.max 0 (Z.min (Z.of_nat len) (Z.of_nat len)))) with len by lia.
  destruct (Z_le_gt_dec k (Z.of_nat len)) as [Hle|Hgt].
  - replace (Z.to_nat (Z.max 0 (Z.min k (Z.of_nat len)))) with (Z.to_nat k) by lia.
    rewrite Nat.min_l, Nat.max_r by lia.
    apply take_all. rewrite length_drop. fold len. lia.
  - replace (Z.to_nat (Z.max 0 (Z.min k (Z.of_nat len)))) with len by lia.
    rewrite Nat.min_id, Nat.max_id, Nat.sub_diag.
    rewrite !drop_all; [|fold len; lia..]. reflexivity.
Qed.

End StringFacts.

(** ** Signature decoder *)

Lemma accuracy_of_digit (format : string) (n : Z) :
  0 <= n <= 9 ->
  JsString.last_char format = Some (Spec.digit n) ->
  accuracy_of format = Num n.
Proof.
  intros Hn Hlast. unfold accuracy_of. rewrite Hlast.
  replace n with (Z.of_nat (Z.to_nat n)) by lia.
  assert (Hk : (Z.to_nat n < 10)%nat) by lia.
  revert Hk. generalize (Z.to_nat n) as k. intros k Hk.
  do 10 (destruct k as [|k]; [reflexivity |]). lia.
Qed.

(** What line 643 computes for a token that does not end in a digit. *)
Lemma accuracy_of_date : accuracy_of "date" = NaN.
Proof. reflexivity. Qed.

(** C3, as amended: a token of [sf] that contains [date] and ends in a
    digit [n] from 1 to 9 makes the timestamp the first [15 + n] characters
    of the stored signature text (14 digits, the decimal point and [n]
    fractional digits), and the residual signature text everything from
    offset [16 + n] on: the character that follows the timestamp, the
    separator, is skipped. *)
Theorem date_token_split (s format : string) (n : Z) (v : sealValidation) :
  JsString.includes "date" format = true ->
  1 <= n <= 9 ->
  JsString.last_char format = Some (Spec.digit n) ->
  signature_date (apply_format s v format)
    = Some (JsString.take (Z.to_nat (15 + n)) s)
  /\ signature (apply_format s v format)
    = Some (JsString.drop (Z.to_nat (16 + n)) s).
Proof.
  intros Hdate Hn Hlast. unfold apply_format. rewrite Hdate.
  rewrite (accuracy_of_digit format n) by (lia || exact Hlast). unfold split_date.
  cbn [signature_date signature with_signature_date with_signature].
  rewrite substring_head, substring_tail by lia. split; reflexivity.
Qed.

Lemma date_token_split_witness :
  JsString.includes "date" "date2" = true
  /\ 1 <= 2 <= 9
  /\ JsString.last_char "date2" = Some (Spec.digit 2)
  /\ signature_date (apply_format "20240326164401.50:deadbeef" (fresh_validation false) "date2")
     = Some "20240326164401.50"
  /\ signature (apply_format "20240326164401.50:deadbeef" (fresh_validation false) "date2")
     = Some "deadbeef".
Proof.
  split; [reflexivity |]. split; [lia |]. split; [reflexivity |].
  apply (date_token_split "20240326164401.50:deadbeef" "date2" 2 (fresh_validation false));
    [reflexivity | lia | reflexivity].
Defined.

(** C3, as stated, fails on its own example: with [sf] set to [date2:hex]
    and the stored text [20240326164401.50deadbeef] the date is extracted,
    but the text handed to the hexadecimal decoder is [eadbeef]. *)
Lemma date2_hex_residual_loses_a_character :
  let r : gmap string string :=
    <["sf" := "date2:hex"]> (<["s" := "20240326164401.50deadbeef"]> ∅) in
  let v := process_formats r "20240326164401.50deadbeef" (fresh_validation false) in
  signature_date v = Some "20240326164401.50"
  /\ signature_encoding v = "hex"
  /\ signature v = Some "eadbeef"
  /\ signature v <> Some "deadbeef".
Proof.
  vm_compute. repeat split; discriminate.
Qed.

(** The digit 0 is left out of C3: the documentation of [sf] has [date0]
    mean the same as [date], a timestamp of 14 digits and its separator. The
    code treats the 0 like the other digits: it takes 15 characters, so that
    the separator lands in the timestamp, and it starts the residual text at
    offset 16, one character into the signature. *)
Lemma date0_is_not_date (s : string) (v : sealValidation) :
  signature_date (apply_format s v "date") = Some (JsString.take 14 s)
  /\ signature (apply_format s v "date") = Some (JsString.drop 15 s)
  /\ signature_date (apply_format s v "date0") = Some (JsString.take 15 s)
  /\ signature (apply_format s v "date0") = Some (JsString.drop 16 s).
Proof.
  unfold apply_format.
  change (is_encoding "date") with false. change (is_encoding "date0") with false.
  change (JsString.includes "date" "date") with true.
  change (JsString.includes "date" "date0") with true.
  change (accuracy_of "date") with NaN. change (accuracy_of "date0") with (Num 0).
  unfold split_date.
  cbn [signature_date signature with_signature_date with_signature].
  rewrite !substring_head, !substring_tail by lia. repeat split.
Qed.

Example date0_takes_the_separator :
  let v := apply_format "20240326164401:deadbeef" (fresh_validation false) "date0" in
  signature_date v = Some "20240326164401:" /\ signature v = Some "eadbeef".
Proof. vm_compute. split; reflexivity. Qed.

(** The same record with the separator after the timestamp, through
    [doubleDigest]: the text [deadbeef] goes to the decoder. *)
Example date2_hex_with_separator :
  let r : gmap string string :=
    <["sf" := "date2:hex"]> (<["s" := "20240326164401.50:deadbeef"]> ∅) in
  let v := (doubleDigest Fixture.decode Fixture.decode Fixture.merge Fixture.text_bytes r
              (with_digest1 (Some []) (fresh_validation false))).1 in
  signature_date v = Some "20240326164401.50"
  /\ signature v = Some "deadbeef"
  /\ signature_bytes v = Fixture.text_bytes "deadbeef"
  /\ digest2 v = Some (Fixture.text_bytes "20240326164401.50:").
Proof. vm_compute. repeat split. Qed.

(** ** Record parser *)

Section ParserFacts.
Import Parser.




Lemma seg_string_adjust (sg : segment) : seg_string (adjust sg) = seg_string sg.
Proof. unfold adjust. destruct (JsString.includes _ _); reflexivity. Qed.

Lemma normalise_da_other (o : gmap string string) (k : string) :
  k ≠ "da" -> normalise_da o !! k = o !! k.
Proof.
  intros Hk. unfold normalise_da, default_da.
  rewrite lookup_insert_ne by congruence.
  destruct (is_truthy (o !! "da")); [reflexivity |].
  rewrite lookup_insert_ne by congruence. reflexivity.
Qed.

Lemma digest_name_falsy (da : option string) :
  is_truthy da = false -> digest_name da = "SHA-256".
Proof. destruct da as [[|c s]|]; [reflexivity | discriminate | reflexivity]. Qed.

Lemma normalise_da_da (o : gmap string string) :
  normalise_da o !! "da" = Some (digest_name (o !! "da")).
Proof.
  unfold normalise_da, default_da. rewrite lookup_insert_eq.
  destruct (is_truthy (o !! "da")) eqn:Hda; [reflexivity |].
  rewrite lookup_insert_eq, (digest_name_falsy _ Hda). reflexivity.
Qed.

Lemma complete_normalise_da (o : gmap string string) :
  complete (normalise_da o) = complete o.
Proof. unfold complete. rewrite !normalise_da_other by discriminate. reflexivity. Qed.

(** What [parse] returns, in terms of the first segment. *)
Lemma parse_unfold (a : asset) (sg : segment) (rest : list segment) :
  seal_segments a = Some (sg :: rest) ->
  parse a
    = (set_seal_segments (adjust sg :: rest) a,
       if complete (extract (seg_string sg))
       then inr (normalise_da (extract (seg_string sg)))
       else inl incomplete_error).
Proof.
  intros Hseg. unfold parse. rewrite Hseg, seg_string_adjust, complete_normalise_da.
  destruct (complete _); reflexivity.
Qed.

Lemma parse_record (a a' : asset) (sg : segment) (rest : list segment)
    (r : gmap string string) :
  seal_segments a = Some (sg :: rest) ->
  parse a = (a', inr r) ->
  r = normalise_da (extract (seg_string sg)).
Proof.
  intros Hseg Hparse. rewrite (parse_unfold a sg rest Hseg) in Hparse.
  destruct (complete _); congruence.
Qed.

End ParserFacts.

(** C6, as amended: the digest algorithm of a parsed record is [SHA-256]
    when [da] is absent or empty; the tokens [sha1], [sha256], [sha384] and
    [sha512], written exactly so, select [SHA-1], [SHA-256], [SHA-384] and
    [SHA-512]; every other value, a different spelling in upper case
    included, falls back to [SHA-256]. *)
Theorem parsed_digest_algorithm (a a' : asset) (sg : segment) (rest : list segment)
    (r : gmap string string) :
  seal_segments a = Some (sg :: rest) ->
  Parser.parse a = (a', inr r) ->
  let da := Parser.extract (seg_string sg) !! "da" in
  (is_truthy da = false -> r !! "da" = Some "SHA-256")
  /\ ((da = Some "sha1" /\ r !! "da" = Some "SHA-1")
      \/ (da = Some "sha256" /\ r !! "da" = Some "SHA-256")
      \/ (da = Some "sha384" /\ r !! "da" = Some "SHA-384")
      \/ (da = Some "sha512" /\ r !! "da" = Some "SHA-512")
      \/ (da ≠ Some "sha1" /\ da ≠ Some "sha256" /\ da ≠ Some "sha384"
          /\ da ≠ Some "sha512" /\ r !! "da" = Some "SHA-256")).
Proof.
  intros Hseg Hparse da. rewrite (parse_record a a' sg rest r Hseg Hparse).
  rewrite normalise_da_da. fold da. split.
  - intros Hda. rewrite (digest_name_falsy da Hda). reflexivity.
  - unfold Parser.digest_name.
    destruct (decide (da = Some "sha256")) as [->|H256]; [right; left; split; reflexivity |].
    destruct (decide (da = Some "sha384")) as [->|H384];
      [right; right; left; split; reflexivity |].
    destruct (decide (da = Some "sha512")) as [->|H512];
      [right; right; right; left; split; reflexivity |].
    destruct (decide (da = Some "sha1")) as [->|H1]; [left; split; reflexivity |].
    do 4 right. rewrite !bool_decide_eq_false_2 by assumption. auto.
Qed.

Lemma parsed_digest_algorithm_witness :
  seal_segments Fixture.upper_da = Some [Fixture.segment_of Fixture.upper_da]
  /\ Parser.parse Fixture.upper_da
     = (Fixture.upper_da, inr (Fixture.record_of Fixture.upper_da))
  /\ Fixture.record_of Fixture.upper_da !! "da" = Some "SHA-256".
Proof.
  assert (Hseg : seal_segments Fixture.upper_da
                 = Some [Fixture.segment_of Fixture.upper_da]) by reflexivity.
  assert (Hparse : Parser.parse Fixture.upper_da
                   = (Fixture.upper_da, inr (Fixture.record_of Fixture.upper_da)))
    by (vm_compute; reflexivity).
  split; [exact Hseg |]. split; [exact Hparse |].
  destruct (parsed_digest_algorithm _ _ _ _ _ Hseg Hparse) as
    (_ & [(Hda & _) | [(Hda & _) | [(Hda & _) | [(Hda & _) | (_ & _ & _ & _ & Hr)]]]]);
    [vm_compute in Hda; discriminate Hda.. | exact Hr].
Defined.

(** C6, as stated, fails: [da] written [SHA512] names SHA-512 when case is
    ignored, and the parser resolves it to [SHA-256]. *)
Lemma upper_case_da_falls_back :
  Parser.extract (seg_string (Fixture.segment_of Fixture.upper_da)) !! "da" = Some "SHA512"
  /\ Spec.digest_algorithm_ignoring_case (Some "SHA512") = "SHA-512"
  /\ (exists a r, Parser.parse Fixture.upper_da = (a, inr r)
                  /\ r !! "da" = Some "SHA-256"
                  /\ r !! "da" ≠ Some (Spec.digest_algorithm_ignoring_case (Some "SHA512"))).
Proof.
  split; [vm_compute; reflexivity |]. split; [vm_compute; reflexivity |].
  exists Fixture.upper_da, (Fixture.record_of Fixture.upper_da).
  split; [vm_compute; reflexivity |]. split; [vm_compute; reflexivity |].
  vm_compute. discriminate.
Qed.

(** C8, as amended: besides yielding the record or failing, [parse] changes
    the asset in one place. When the text of the first segment holds an
    [&quot;], the parser itself moves that segment's [signature_end] back by
    5, once, whether parsing then succeeds or fails; nothing else of the
    asset changes. *)
Theorem parse_effect_on_asset (a : asset) (sg : segment) (rest : list segment) :
  seal_segments a = Some (sg :: rest) ->
  let a' := (Parser.parse a).1 in
  asset_name a' = asset_name a
  /\ asset_mime a' = asset_mime a
  /\ asset_size a' = asset_size a
  /\ asset_domain a' = asset_domain a
  /\ seal_segments a'
     = Some (mkSegment (seg_string sg)
               (if JsString.includes "&quot;" (seg_string sg)
                then signature_end sg - 5 else signature_end sg) :: rest).
Proof.
  intros Hseg a'. subst a'. rewrite (parse_unfold a sg rest Hseg). cbn [fst].
  repeat split. cbn [seal_segments set_seal_segments]. unfold Parser.adjust.
  destruct (JsString.includes _ _); [reflexivity | destruct sg; reflexivity].
Qed.

Lemma parse_effect_on_asset_witness :
  seal_segments Fixture.escaped = Some [Fixture.segment_of Fixture.escaped]
  /\ seal_segments (Parser.parse Fixture.escaped).1
     = Some [mkSegment (seg_string (Fixture.segment_of Fixture.escaped)) 55].
Proof.
  assert (Hseg : seal_segments Fixture.escaped
                 = Some [Fixture.segment_of Fixture.escaped]) by reflexivity.
  split; [exact Hseg |].
  destruct (parse_effect_on_asset _ _ _ Hseg) as (_ & _ & _ & _ & H).
  rewrite H. reflexivity.
Defined.

(** C8, as stated, fails: parsing a segment written with [&quot;] leaves the
    asset with a [signature_end] 5 lower than the caller passed. *)
Lemma parse_shifts_signature_end :
  Ranges.first_signature_end Fixture.escaped = Some 60
  /\ Ranges.first_signature_end (Parser.parse Fixture.escaped).1 = Some 55
  /\ (Parser.parse Fixture.escaped).1 ≠ Fixture.escaped.
Proof.
  split; [reflexivity |]. split; [vm_compute; reflexivity |].
  intros H. apply (f_equal Ranges.first_signature_end) in H.
  vm_compute in H. discriminate H.
Qed.

(** ** Key cache *)

Section KeyCacheFacts.

Lemma replaced_by_None (x : option string) : Spec.replaced_by x None = x.
Proof. destruct x; reflexivity. Qed.

Lemma replaced_by_assoc (x y z : option string) :
  Spec.replaced_by x (Spec.replaced_by y z) = Spec.replaced_by (Spec.replaced_by x y) z.
Proof. destruct x, y; reflexivity. Qed.

Lemma last_keys_for_cons (alg : string) (rec : txt_record) (recs : list txt_record) :
  last (Spec.keys_for alg (rec :: recs))
    = Spec.replaced_by (last (Spec.keys_for alg recs)) (Spec.key_of alg rec).
Proof.
  unfold Spec.keys_for. cbn [omap list_omap].
  destruct (Spec.key_of alg rec) as [p|].
  - rewrite last_cons. destruct (last _); reflexivity.
  - rewrite replaced_by_None. reflexivity.
Qed.

Lemma truthy_is_Some (v : option string) : is_truthy v = true -> is_Some v.
Proof. destruct v; [eauto | discriminate]. Qed.

Lemma store_key_lookup (domain : string) (pk : gmap string key_entry) (rec : txt_record) :
  store_key domain pk rec !! domain
    = if Spec.usable rec
      then Some (Spec.updated rec (default (mkEntry None None) (pk !! domain)))
      else pk !! domain.
Proof.
  unfold store_key, Spec.updated, Spec.key_of. fold (Spec.usable rec).
  destruct (Spec.usable rec) eqn:Hu; [|reflexivity].
  assert (is_Some (txt_p rec)) as [p Hp].
  { apply truthy_is_Some. unfold Spec.usable in Hu.
    apply andb_true_iff in Hu as [_ Hu]. exact Hu. }
  cbn [andb].
  set (pk1 := match pk !! domain with
              | Some _ => pk
              | None => <[domain := mkEntry None None]> pk
              end).
  assert (H1 : pk1 !! domain = Some (default (mkEntry None None) (pk !! domain))).
  { subst pk1. destruct (pk !! domain) eqn:E; [exact E | apply lookup_insert_eq]. }
  destruct (decide (txt_ka rec = Some "rsa")) as [Hrsa|Hrsa];
    destruct (decide (txt_ka rec = Some "ec")) as [Hec|Hec];
    try (rewrite Hrsa in Hec; discriminate Hec).
  - rewrite (bool_decide_eq_true_2 _ Hrsa), (bool_decide_eq_false_2 _ Hec).
    rewrite lookup_alter_eq, H1, Hp. destruct (default _ _); reflexivity.
  - rewrite (bool_decide_eq_false_2 _ Hrsa), (bool_decide_eq_true_2 _ Hec).
    rewrite lookup_alter_eq, H1, Hp. destruct (default _ _); reflexivity.
  - rewrite (bool_decide_eq_false_2 _ Hrsa), (bool_decide_eq_false_2 _ Hec).
    rewrite H1. destruct (default _ _); reflexivity.
Qed.

Lemma store_key_other (domain other : string) (pk : gmap string key_entry)
    (rec : txt_record) :
  other ≠ domain -> store_key domain pk rec !! other = pk !! other.
Proof.
  intros Hne. unfold store_key.
  destruct (_ && _); [|reflexivity].
  repeat (case_bool_decide || case_match);
    rewrite ?lookup_alter_ne, ?lookup_insert_ne by congruence; reflexivity.
Qed.

Lemma store_keys_lookup_Some (domain : string) (recs : list txt_record)
    (pk : gmap string key_entry) (e : key_entry) :
  pk !! domain = Some e ->
  store_keys domain recs pk !! domain
    = Some (mkEntry (Spec.replaced_by (last (Spec.keys_for "rsa" recs)) (rsa e))
                    (Spec.replaced_by (last (Spec.keys_for "ec" recs)) (ec e))).
Proof.
  revert pk e. induction recs as [|rec recs IH]; intros pk e He.
  - cbn. rewrite He. destruct e; reflexivity.
  - unfold store_keys in *. cbn [fold_left].
    pose proof (store_key_lookup domain pk rec) as Hstep. rewrite He in Hstep.
    rewrite !last_keys_for_cons, <- !replaced_by_assoc.
    destruct (Spec.usable rec) eqn:Hu.
    + rewrite (IH _ _ Hstep). reflexivity.
    + rewrite (IH _ _ Hstep). unfold Spec.key_of. rewrite Hu. reflexivity.
Qed.

Lemma store_keys_lookup_None (domain : string) (recs : list txt_record)
    (pk : gmap string key_entry) :
  pk !! domain = None ->
  store_keys domain recs pk !! domain
    = if existsb Spec.usable recs
      then Some (mkEntry (last (Spec.keys_for "rsa" recs))
                         (last (Spec.keys_for "ec" recs)))
      else None.
Proof.
  revert pk. induction recs as [|rec recs IH]; intros pk Hpk.
  - exact Hpk.
  - cbn [existsb]. unfold store_keys in *. cbn [fold_left].
    pose proof (store_key_lookup domain pk rec) as Hstep. rewrite Hpk in Hstep.
    rewrite !last_keys_for_cons.
    destruct (Spec.usable rec) eqn:Hu.
    + fold (store_keys domain recs (store_key domain pk rec)).
      rewrite (store_keys_lookup_Some _ _ _ _ Hstep). unfold Spec.updated.
      cbn [default rsa ec orb]. rewrite !replaced_by_None. reflexivity.
    + rewrite (IH _ Hstep). unfold Spec.key_of. rewrite Hu. cbn [andb orb].
      destruct (existsb _ _); [|reflexivity].
      rewrite !replaced_by_None. reflexivity.
Qed.

Lemma store_keys_other (domain other : string) (recs : list txt_record)
    (pk : gmap string key_entry) :
  other ≠ domain -> store_keys domain recs pk !! other = pk !! other.
Proof.
  intros Hne. revert pk. induction recs as [|rec recs IH]; intros pk; [reflexivity |].
  unfold store_keys in *. cbn [fold_left]. rewrite IH.
  apply store_key_other. exact Hne.
Qed.

End KeyCacheFacts.

(** C4, as amended: after the TXT records of a domain that was not cached
    have been stored, the cache holds for that domain one entry with one slot
    per key algorithm, and each slot holds the key of the last usable record
    of that algorithm in the answer: a later record replaces an earlier one.
    Without a usable record the domain stays out of the cache. *)
Theorem key_cache_keeps_last (domain : string) (TXTRecords : list txt_record)
    (pk : gmap string key_entry) :
  pk !! domain = None ->
  store_keys domain TXTRecords pk !! domain
    = if existsb Spec.usable TXTRecords
      then Some (mkEntry (last (Spec.keys_for "rsa" TXTRecords))
                         (last (Spec.keys_for "ec" TXTRecords)))
      else None.
Proof. apply store_keys_lookup_None. Qed.

Lemma key_cache_keeps_last_witness :
  (∅ : gmap string key_entry) !! "example.com" = None
  /\ store_keys "example.com"
       [Fixture.rsa_record "FIRST"; Fixture.rsa_record "SECOND"] ∅ !! "example.com"
     = Some (mkEntry (Some "SECOND") None).
Proof.
  split; [reflexivity |].
  rewrite (key_cache_keeps_last "example.com"
             [Fixture.rsa_record "FIRST"; Fixture.rsa_record "SECOND"] ∅
             (lookup_empty _)).
  reflexivity.
Defined.

(** C4, as stated, fails: when the DNS answers with two usable [rsa] records,
    the pass leaves the key of the second one in the cache and verifies with
    it; the key seen first is gone. *)
Lemma key_cache_drops_first_seen :
  let x := Fixture.run [Fixture.rsa_record "FIRST"; Fixture.rsa_record "SECOND"]
             (Fixture.with_range "F~S,s~f") false SEAL_initial in
  public_keys (w_seal x.2) !! "example.com" = Some (mkEntry (Some "SECOND") None)
  /\ In (ImportKey (Stored (Some "SECOND"))) (Fixture.trace_of x)
  /\ (rsa <$> public_keys (w_seal x.2) !! "example.com") ≠ Some (Some "FIRST").
Proof.
  vm_compute. split; [reflexivity |]. split; [|discriminate].
  do 5 right. left. reflexivity.
Qed.

(** ** Range resolver *)

Section RangeFacts.
Import Ranges.

Variable a : asset.
Variable r : gmap string string.

Lemma option_list_omap {A B} (f : A -> option B) (x : A) (l : list A) :
  option_list (f x) ++ omap f l = omap f (x :: l).
Proof. cbn [omap list_omap]. destruct (f x); reflexivity. Qed.

(** The callback pushes at most one range, and which one does not depend
    on the state of the loop. *)
Lemma range_step_ranges (digest_range : string) (st : loop_state) :
  ls_ranges (range_step a r digest_range st).1
    = ls_ranges st ++ option_list (Spec.range_of a r digest_range).
Proof.
  unfold Spec.range_of, range_step.
  destruct (endpoint (first_of _)) as [[anchor add] sub].
  destruct (start_anchor a r anchor) as [z label| |]; cbn; try (rewrite app_nil_r; reflexivity).
  destruct (JsString.split "~" digest_range !! 1%nat) as [stop|]; cbn;
    [|rewrite app_nil_r; reflexivity].
  destruct (endpoint stop) as [[anchor' add'] sub'].
  destruct (stop_anchor a r anchor') as [z' label'| |]; cbn;
    try (rewrite app_nil_r; reflexivity).
  reflexivity.
Qed.

Lemma forEach_ranges (digest_ranges : list string) (st : loop_state) :
  exists k : nat,
    (k <= length digest_ranges)%nat
    /\ ls_ranges (forEach a r digest_ranges st).1
       = ls_ranges st ++ omap (Spec.range_of a r) (take k digest_ranges)
    /\ ((forEach a r digest_ranges st).2 = Done -> k = length digest_ranges).
Proof.
  revert st. induction digest_ranges as [|t ts IH]; intros st.
  - exists 0%nat. cbn. rewrite app_nil_r. auto.
  - cbn [forEach].
    pose proof (range_step_ranges t st) as Hstep.
    destruct (range_step a r t st) as [st' [|]]; cbn [fst] in Hstep.
    + destruct (IH st') as (k & Hk & Hranges & Hdone).
      exists (S k). cbn [length take]. split; [lia |]. split.
      * rewrite Hranges, Hstep, <- app_assoc, option_list_omap. reflexivity.
      * intros H. rewrite (Hdone H). reflexivity.
    + exists 1%nat. cbn [length take fst snd]. split; [lia |]. split.
      * rewrite Hstep, <- (option_list_omap _ t []). cbn [omap list_omap].
        rewrite app_nil_r. reflexivity.
      * discriminate.
Qed.

End RangeFacts.

(** The property of section 8 of the specification: [F~f] is the whole
    asset. *)
Lemma range_of_whole_file (a : asset) (r : gmap string string) :
  Spec.exact (asset_size a) ->
  Spec.range_of a r "F~f" = Some (Num 0, Num (asset_size a)).
Proof.
  intros Hsize. unfold Spec.range_of, Ranges.range_step.
  change (JsString.split "~" "F~f") with ["F"; "f"].
  cbn [Ranges.first_of lookup list_lookup].
  change (Ranges.endpoint "F") with ("F", Num 0, Num 0).
  change (Ranges.endpoint "f") with ("f", Num 0, Num 0).
  lazy beta iota zeta.
  change (Ranges.start_anchor a r "F") with (Ranges.Anchor 0 (Some "Start of file")).
  change (Ranges.stop_anchor a r "f")
    with (Ranges.Anchor (asset_size a) (Some "End of file")).
  cbn [Ranges.ls_ranges fst app head Ranges.show_range_start Ranges.ls_rejected
       Ranges.show_range_stop Ranges.ls_summary].
  unfold Ranges.coordinate.
  change (nadd (nadd (Num 0) (Num 0)) (Num 0)) with (Num 0).
  rewrite (nadd_exact (asset_size a) 0) by (rewrite Z.add_0_r; exact Hsize).
  rewrite (nadd_exact (asset_size a + 0) 0) by (rewrite !Z.add_0_r; exact Hsize).
  rewrite !Z.add_0_r. reflexivity.
Qed.

(** C7, as amended: the ranges the resolver produces are those of the ranges
    of the expression that resolve, one pair each, in the order the
    expression lists them; all of them when no callback throws, those of a
    prefix of the expression otherwise. The resolver does not check the
    coordinates: nothing makes an endpoint non-negative or the end at least
    the start. *)
Theorem digest_ranges_in_expression_order (a : asset) (r : gmap string string)
    (b summary : string) :
  exists k : nat,
    (k <= length (JsString.split "," b))%nat
    /\ Ranges.ls_ranges (Ranges.resolve a r b summary).1
       = omap (Spec.range_of a r) (take k (JsString.split "," b))
    /\ ((Ranges.resolve a r b summary).2 = Ranges.Done
        -> k = length (JsString.split "," b)).
Proof.
  unfold Ranges.resolve.
  destruct (forEach_ranges a r (JsString.split "," b)
              (Ranges.mkLoop [] summary None None None)) as (k & Hk & Hranges & Hdone).
  exists k. auto.
Qed.

(** C7, as stated, fails: the expression [f~F] is resolved to the range from
    the size of the asset to 0, whose end is below its start. *)
Lemma reversed_range_is_produced :
  let x := Fixture.run [Fixture.rsa_record "KEY"] (Fixture.with_range "f~F")
             false SEAL_initial in
  (validation (w_seal x.2) ≫= digest_ranges) = Some [(Num 100, Num 0)]
  /\ ~ Forall Spec.well_formed [(Num 100, Num 0)].
Proof.
  split; [vm_compute; reflexivity |].
  intros H. apply Forall_cons in H as [[_ H] _]. lia.
Qed.

(** ** Verification pass *)

Section PassFacts.

Variable readChunks : asset -> asset.
Variable assembleBuffer : asset -> list range -> bytes.
Variable getDNSTXTRecords : string -> string -> js_error + list txt_record.
Variable JSON_stringify : list txt_record -> string.
Variable subtle_digest : option string -> bytes -> js_error + bytes.
Variable algorithm_parameters : Type.
Variable CryptoKey : Type.
Variable getAlgorithmParameters :
  key_value -> option string -> option string -> algorithm_parameters.
Variable importCryptoKey : key_value -> algorithm_parameters -> js_error + CryptoKey.
Variable verifySignature :
  bytes -> bytes -> CryptoKey -> algorithm_parameters -> js_error + bool.
Variable getCryptoKeyLength : CryptoKey -> Z.
Variable hexToUint8Array : string -> js_error + bytes.
Variable base64ToUint8Array : string -> js_error + bytes.
Variable mergeBuffer : bytes -> bytes -> bytes.
Variable createDate_toISOString : string -> js_error + string.
Variable TextEncoder_encode : string -> bytes.

Local Abbreviation pass :=
  (validateSig readChunks assembleBuffer getDNSTXTRecords JSON_stringify subtle_digest
     algorithm_parameters CryptoKey getAlgorithmParameters importCryptoKey
     verifySignature getCryptoKeyLength hexToUint8Array base64ToUint8Array mergeBuffer
     createDate_toISOString TextEncoder_encode).

(** A record is incomplete when one of the four attributes is missing or
    empty. *)
Lemma incomplete_iff (o : gmap string string) :
  Parser.complete o = false
  <-> exists k, k ∈ ["seal"; "d"; "ka"; "s"] /\ is_truthy (o !! k) = false.
Proof.
  unfold Parser.complete. split.
  - intros H. repeat (apply andb_false_iff in H as [H|H]);
      eexists; (split; [|exact H]); set_solver.
  - intros (k & Hk & Hfalse).
    repeat (apply elem_of_cons in Hk as [->|Hk]); [..|inversion Hk];
      rewrite Hfalse, ?andb_false_r; reflexivity.
Qed.

(** The pass on an incomplete record: the exception of [parse] ends the
    executor, the promise is left pending, and nothing was called. *)
Lemma pass_incomplete (a : asset) (verbose : bool) (s : SEAL)
    (sg : segment) (rest : list segment) :
  seal_segments (readChunks a) = Some (sg :: rest) ->
  Parser.complete (Parser.extract (seg_string sg)) = false ->
  pass a verbose s
    = (Halt (Uncaught Parser.incomplete_error),
       mkWorld (mkSEAL (public_keys s) (record s) (Some (fresh_validation verbose)))
         Pending [Enter StParse]).
Proof.
  intros Hseg Hinc. unfold validateSig, validateSig_executor.
  rewrite Hseg, (parse_unfold _ _ _ Hseg), Hinc. reflexivity.
Qed.

(** Without a range expression [digest] requests nothing and settles
    nothing. *)
Lemma digest_without_range (a : asset) (r : gmap string string) (v : sealValidation) :
  is_truthy (r !! "b") = false ->
  digest assembleBuffer subtle_digest a r v
    = (with_digest_ranges (Some []) v, Pending, []).
Proof.
  intros Hb. unfold digest. destruct (r !! "b") as [[|c b]|]; try reflexivity.
  discriminate Hb.
Qed.

(** The promise of [doubleDigest] is settled when the executor ends. *)
Lemma doubleDigest_settled (r : gmap string string) (v : sealValidation) :
  (doubleDigest hexToUint8Array base64ToUint8Array mergeBuffer TextEncoder_encode r v).2
    ≠ Pending.
Proof.
  unfold doubleDigest, build_digest2.
  repeat case_match; simplify_eq; cbn; discriminate.
Qed.

(** The pass up to the digest stage, when the record is complete and the
    key of its domain is cached or fetched. *)
Lemma pass_resolved (a : asset) (verbose : bool) (s : SEAL) (sg : segment)
    (rest : list segment) (pk : gmap string key_entry) (query : list event) :
  let r := Parser.normalise_da (Parser.extract (seg_string sg)) in
  let a' := set_seal_segments (Parser.adjust sg :: rest) (readChunks a) in
  seal_segments (readChunks a) = Some (sg :: rest) ->
  Parser.complete (Parser.extract (seg_string sg)) = true ->
  Spec.key_resolution getDNSTXTRecords s r (doh_api (fresh_validation verbose))
    = Some (pk, query) ->
  is_Some (pk !! property_name (r !! "d"))
  /\ pass a verbose s
     = (run_digest assembleBuffer subtle_digest a';;
        run_doubleDigest hexToUint8Array base64ToUint8Array mergeBuffer TextEncoder_encode;;
        verify subtle_digest algorithm_parameters CryptoKey getAlgorithmParameters
          importCryptoKey verifySignature getCryptoKeyLength createDate_toISOString a')
         (mkWorld (mkSEAL pk (Some r) (Some (fresh_validation verbose)))
            Pending ([Enter StParse] ++ query)).
Proof.
  intros r a' Hseg Hcomplete Hkey. unfold validateSig, validateSig_executor.
  rewrite Hseg, (parse_unfold _ _ _ Hseg), Hcomplete.
  unfold Spec.key_resolution in Hkey. unfold resolve_key. exec. fold r.
  destruct (public_keys s !! property_name (r !! "d")) as [e|] eqn:Hcached.
  - injection Hkey as <- <-. split; [eauto | reflexivity].
  - destruct (inherited _); [discriminate Hkey |]. exec.
    destruct (getDNSTXTRecords _ _) as [err|recs]; [discriminate Hkey |]. exec.
    destruct (store_keys _ recs (public_keys s) !! _) as [e|] eqn:Hstored;
      [|discriminate Hkey].
    injection Hkey as <- <-. split; [eauto | reflexivity].
Qed.

(** Once the promise is rejected, [verify] still asks for the key to be
    imported, and leaves the promise as it found it. *)
Lemma verify_after_rejection (a : asset) (pk : gmap string key_entry)
    (r : gmap string string) (v : sealValidation) (e : key_entry) (err : js_error)
    (tr : list event) :
  pk !! property_name (r !! "d") = Some e ->
  exists tail : list event,
    let x := verify subtle_digest algorithm_parameters CryptoKey getAlgorithmParameters
               importCryptoKey verifySignature getCryptoKeyLength
               createDate_toISOString a
               (mkWorld (mkSEAL pk (Some r) (Some v)) (Rejected err) tr) in
    w_promise x.2 = Rejected err
    /\ w_trace x.2 = tr ++ [ImportKey (cached_key e (r !! "ka"))] ++ tail.
Proof.
  intros Hpk. unfold verify, verbose_part, stored_key. exec. rewrite Hpk.
  repeat (exec; try (case_match; simplify_eq));
    (eexists; split; [reflexivity | rewrite <- ?app_assoc; reflexivity]).
Qed.

(** C5, on the code: when one of [seal], [d], [ka], [s] is missing or
    empty in the first segment, [parse] throws the error named
    [SEAL_RECORD_MISSING_PARAMETERS] and the pass stops before any DNS
    query or cryptographic call. The exception ends the executor without
    settling the promise: the caller of [validateSig] is told nothing. *)
Theorem incomplete_record_is_not_surfaced (a : asset) (verbose : bool) (s : SEAL)
    (sg : segment) (rest : list segment) (k : string) :
  seal_segments (readChunks a) = Some (sg :: rest) ->
  k ∈ ["seal"; "d"; "ka"; "s"] ->
  is_truthy (Parser.extract (seg_string sg) !! k) = false ->
  (Parser.parse (readChunks a)).2 = inl Parser.incomplete_error
  /\ (pass a verbose s).1 = Halt (Uncaught Parser.incomplete_error)
  /\ w_promise (pass a verbose s).2 = Pending
  /\ w_trace (pass a verbose s).2 = [Enter StParse].
Proof.
  intros Hseg Hk Hfalse.
  assert (Hinc : Parser.complete (Parser.extract (seg_string sg)) = false)
    by (apply incomplete_iff; eauto).
  rewrite (pass_incomplete a verbose s sg rest Hseg Hinc).
  rewrite (parse_unfold _ _ _ Hseg), Hinc. auto.
Qed.

(** C9, on the code: for a complete record without a range expression,
    once the key of its domain is at hand, [digest] requests no digest and
    never settles its promise; the pass waits for it for good and the promise
    of [validateSig] stays pending. *)
Theorem absent_range_never_settles (a : asset) (verbose : bool) (s : SEAL)
    (sg : segment) (rest : list segment) (pk : gmap string key_entry)
    (query : list event) :
  let r := Parser.normalise_da (Parser.extract (seg_string sg)) in
  seal_segments (readChunks a) = Some (sg :: rest) ->
  Parser.complete (Parser.extract (seg_string sg)) = true ->
  Spec.key_resolution getDNSTXTRecords s r (doh_api (fresh_validation verbose))
    = Some (pk, query) ->
  is_truthy (r !! "b") = false ->
  pass a verbose s
    = (Halt AwaitsForever,
       mkWorld
         (mkSEAL pk (Some r)
            (Some (with_digest_ranges (Some []) (fresh_validation verbose))))
         Pending ([Enter StParse] ++ query ++ [Enter StDigest])).
Proof.
  intros r Hseg Hcomplete Hkey Hb.
  destruct (pass_resolved a verbose s sg rest pk query Hseg Hcomplete Hkey) as [_ ->].
  fold r. unfold run_digest. exec. rewrite (digest_without_range _ r _ Hb). exec.
  rewrite <- app_assoc. reflexivity.
Qed.

(** C2, on the code: when the promise of [digest] is rejected, the pass
    rejects its own promise with [DIGEST_ERROR], the first error, and then
    goes on: [doubleDigest] runs and the key is imported. *)
Theorem stages_run_after_digest_rejection (a : asset) (verbose : bool) (s : SEAL)
    (sg : segment) (rest : list segment) (pk : gmap string key_entry)
    (query : list event) (err : js_error) (v' : sealValidation) (calls : list event) :
  let r := Parser.normalise_da (Parser.extract (seg_string sg)) in
  let a' := set_seal_segments (Parser.adjust sg :: rest) (readChunks a) in
  seal_segments (readChunks a) = Some (sg :: rest) ->
  Parser.complete (Parser.extract (seg_string sg)) = true ->
  Spec.key_resolution getDNSTXTRecords s r (doh_api (fresh_validation verbose))
    = Some (pk, query) ->
  digest assembleBuffer subtle_digest a' r (fresh_validation verbose)
    = (v', Rejected err, calls) ->
  exists (e : key_entry) (tail : list event),
    pk !! property_name (r !! "d") = Some e
    /\ w_promise (pass a verbose s).2
       = Rejected (ValidationError DIGEST_ERROR "Digest can not be processed"
                     (Some (error_message err)))
    /\ w_trace (pass a verbose s).2
       = [Enter StParse] ++ query ++ [Enter StDigest] ++ calls
         ++ [Enter StDoubleDigest; ImportKey (cached_key e (r !! "ka"))] ++ tail.
Proof.
  intros r a' Hseg Hcomplete Hkey Hdigest.
  destruct (pass_resolved a verbose s sg rest pk query Hseg Hcomplete Hkey)
    as [[e He] ->].
  fold r a' in He |- *. exists e.
  unfold run_digest. exec. rewrite Hdigest. exec.
  unfold run_doubleDigest. exec.
  pose proof (doubleDigest_settled r v') as Hsettled.
  destruct (doubleDigest _ _ _ _ r v') as [v'' [| |err']]; cbn [snd] in Hsettled;
    [congruence | |]; exec;
    (edestruct (verify_after_rejection a' pk r v'' e) as (tail & Hp & Htr);
     [exact He |]; exists tail; cbn zeta in Hp, Htr; rewrite Hp, Htr;
     split; [exact He |]; split; [reflexivity |];
     cbn [app]; rewrite <- ?app_assoc; reflexivity).
Qed.

End PassFacts.

Lemma incomplete_record_is_not_surfaced_witness :
  let x := Fixture.run [Fixture.rsa_record "KEY"] Fixture.without_seal false SEAL_initial in
  seal_segments (Fixture.read_chunks Fixture.without_seal)
    = Some [Fixture.segment_of Fixture.without_seal]
  /\ "seal" ∈ ["seal"; "d"; "ka"; "s"]
  /\ is_truthy (Parser.extract (seg_string (Fixture.segment_of Fixture.without_seal))
                !! "seal") = false
  /\ (Parser.parse (Fixture.read_chunks Fixture.without_seal)).2
     = inl Parser.incomplete_error
  /\ x.1 = Halt (Uncaught Parser.incomplete_error)
  /\ w_promise x.2 = Pending
  /\ w_trace x.2 = [Enter StParse].
Proof.
  intros x.
  assert (Hseg : seal_segments (Fixture.read_chunks Fixture.without_seal)
                 = Some [Fixture.segment_of Fixture.without_seal]) by reflexivity.
  assert (Hk : "seal" ∈ ["seal"; "d"; "ka"; "s"]) by set_solver.
  assert (Hfalse : is_truthy (Parser.extract
                                (seg_string (Fixture.segment_of Fixture.without_seal))
                              !! "seal") = false) by (vm_compute; reflexivity).
  split; [exact Hseg |]. split; [exact Hk |]. split; [exact Hfalse |].
  exact (incomplete_record_is_not_surfaced Fixture.read_chunks Fixture.assemble
           (Fixture.dns [Fixture.rsa_record "KEY"]) Fixture.stringify Fixture.digest_of
           unit string Fixture.parameters Fixture.import_key Fixture.verify_ok
           Fixture.key_length Fixture.decode Fixture.decode Fixture.merge
           Fixture.iso_date Fixture.text_bytes Fixture.without_seal false SEAL_initial
           _ _ "seal" Hseg Hk Hfalse).
Defined.

Lemma absent_range_never_settles_witness :
  let r := Fixture.record_of Fixture.without_range in
  let api := "https://mozilla.cloudflare-dns.com/dns-query" in
  let pk : gmap string key_entry := <["example.com" := mkEntry (Some "KEY") None]> ∅ in
  seal_segments (Fixture.read_chunks Fixture.without_range)
    = Some [Fixture.segment_of Fixture.without_range]
  /\ Parser.complete
       (Parser.extract (seg_string (Fixture.segment_of Fixture.without_range))) = true
  /\ Spec.key_resolution (Fixture.dns [Fixture.rsa_record "KEY"]) SEAL_initial r api
     = Some (pk, [DnsQuery "example.com" api])
  /\ is_truthy (r !! "b") = false
  /\ Fixture.run [Fixture.rsa_record "KEY"] Fixture.without_range false SEAL_initial
     = (Halt AwaitsForever,
        mkWorld
          (mkSEAL pk (Some r)
             (Some (with_digest_ranges (Some []) (fresh_validation false))))
          Pending
          ([Enter StParse] ++ [DnsQuery "example.com" api] ++ [Enter StDigest])).
Proof.
  intros r api pk.
  assert (Hseg : seal_segments (Fixture.read_chunks Fixture.without_range)
                 = Some [Fixture.segment_of Fixture.without_range]) by reflexivity.
  assert (Hc : Parser.complete
                 (Parser.extract (seg_string (Fixture.segment_of Fixture.without_range)))
               = true) by (vm_compute; reflexivity).
  assert (Hkey : Spec.key_resolution (Fixture.dns [Fixture.rsa_record "KEY"])
                   SEAL_initial r api
                 = Some (pk, [DnsQuery "example.com" api])) by (vm_compute; reflexivity).
  assert (Hb : is_truthy (r !! "b") = false) by (vm_compute; reflexivity).
  split; [exact Hseg |]. split; [exact Hc |]. split; [exact Hkey |]. split; [exact Hb |].
  exact (absent_range_never_settles Fixture.read_chunks Fixture.assemble
           (Fixture.dns [Fixture.rsa_record "KEY"]) Fixture.stringify Fixture.digest_of
           unit string Fixture.parameters Fixture.import_key Fixture.verify_ok
           Fixture.key_length Fixture.decode Fixture.decode Fixture.merge
           Fixture.iso_date Fixture.text_bytes Fixture.without_range false SEAL_initial
           _ _ _ _ Hseg Hc Hkey Hb).
Defined.

(** The same pass when the key is already cached: no query, the same wait. *)
Example absent_range_cached :
  let x := Fixture.run [] Fixture.without_range false Fixture.cached in
  x.1 = Halt AwaitsForever
  /\ w_promise x.2 = Pending
  /\ w_trace x.2 = [Enter StParse; Enter StDigest].
Proof. vm_compute. repeat split. Qed.

Lemma stages_run_after_digest_rejection_witness :
  let a := Fixture.with_range "X~f" in
  let r := Fixture.record_of a in
  let api := "https://mozilla.cloudflare-dns.com/dns-query" in
  let pk : gmap string key_entry := <["example.com" := mkEntry (Some "KEY") None]> ∅ in
  let x := Fixture.run [Fixture.rsa_record "KEY"] a false SEAL_initial in
  seal_segments (Fixture.read_chunks a) = Some [Fixture.segment_of a]
  /\ Parser.complete (Parser.extract (seg_string (Fixture.segment_of a))) = true
  /\ Spec.key_resolution (Fixture.dns [Fixture.rsa_record "KEY"]) SEAL_initial r api
     = Some (pk, [DnsQuery "example.com" api])
  /\ digest Fixture.assemble Fixture.digest_of a r (fresh_validation false)
     = (with_digest_ranges (Some []) (fresh_validation false),
        Rejected (Error "ranges start error"),
        [SubtleDigest (Some "SHA-256") []])
  /\ exists (e : key_entry) (tail : list event),
       pk !! property_name (r !! "d") = Some e
       /\ w_promise x.2
          = Rejected (ValidationError DIGEST_ERROR "Digest can not be processed"
                        (Some "ranges start error"))
       /\ w_trace x.2
          = [Enter StParse] ++ [DnsQuery "example.com" api] ++ [Enter StDigest]
            ++ [SubtleDigest (Some "SHA-256") []]
            ++ [Enter StDoubleDigest; ImportKey (cached_key e (r !! "ka"))] ++ tail.
Proof.
  intros a r api pk x.
  assert (Hseg : seal_segments (Fixture.read_chunks a) = Some [Fixture.segment_of a])
    by reflexivity.
  assert (Hc : Parser.complete (Parser.extract (seg_string (Fixture.segment_of a))) = true)
    by (vm_compute; reflexivity).
  assert (Hkey : Spec.key_resolution (Fixture.dns [Fixture.rsa_record "KEY"])
                   SEAL_initial r api
                 = Some (pk, [DnsQuery "example.com" api])) by (vm_compute; reflexivity).
  assert (Hd : digest Fixture.assemble Fixture.digest_of a r (fresh_validation false)
               = (with_digest_ranges (Some []) (fresh_validation false),
                  Rejected (Error "ranges start error"),
                  [SubtleDigest (Some "SHA-256") []])) by (vm_compute; reflexivity).
  split; [exact Hseg |]. split; [exact Hc |]. split; [exact Hkey |]. split; [exact Hd |].
  exact (stages_run_after_digest_rejection Fixture.read_chunks Fixture.assemble
           (Fixture.dns [Fixture.rsa_record "KEY"]) Fixture.stringify Fixture.digest_of
           unit string Fixture.parameters Fixture.import_key Fixture.verify_ok
           Fixture.key_length Fixture.decode Fixture.decode Fixture.merge
           Fixture.iso_date Fixture.text_bytes a false SEAL_initial
           _ _ _ _ _ _ _ Hseg Hc Hkey Hd).
Defined.

(** The same pass, in full: after [digest] has failed the digest is still
    requested, [doubleDigest] runs and the key is imported; the caller gets
    the first error. *)
Example digest_failure_trace :
  let x := Fixture.run [Fixture.rsa_record "KEY"] (Fixture.with_range "X~f")
             false SEAL_initial in
  w_promise x.2
    = Rejected (ValidationError DIGEST_ERROR "Digest can not be processed"
                  (Some "ranges start error"))
  /\ w_trace x.2
     = [Enter StParse;
        DnsQuery "example.com" "https://mozilla.cloudflare-dns.com/dns-query";
        Enter StDigest; SubtleDigest (Some "SHA-256") [];
        Enter StDoubleDigest; ImportKey (Stored (Some "KEY"))].
Proof. vm_compute. repeat split. Qed.

(** ** Endpoints of a range *)

Section EndpointFacts.
Import JsString.

Lemma split_free (sep : ascii) (s : string) :
  Spec.free_of sep s = true -> split sep s = [s].
Proof.
  induction s as [|c s IH]; [reflexivity |]. cbn [Spec.free_of split].
  intros [Hc Hs]%andb_true_iff. apply negb_true_iff in Hc.
  rewrite Hc, (IH Hs). reflexivity.
Qed.

Lemma split_append (sep : ascii) (s1 s2 : string) :
  Spec.free_of sep s1 = true ->
  split sep (s1 +:+ String sep s2) = s1 :: split sep s2.
Proof.
  induction s1 as [|c s1 IH].
  - intros _. change (EmptyString +:+ String sep s2) with (String sep s2).
    cbn [split]. unfold eqc. rewrite Ascii.eqb_refl. reflexivity.
  - change (String c s1 +:+ String sep s2) with (String c (s1 +:+ String sep s2)).
    cbn [Spec.free_of split].
    intros [Hc Hs]%andb_true_iff. apply negb_true_iff in Hc.
    rewrite Hc, (IH Hs). reflexivity.
Qed.

Lemma free_of_append (c : ascii) (s1 s2 : string) :
  Spec.free_of c (s1 +:+ s2) = Spec.free_of c s1 && Spec.free_of c s2.
Proof.
  induction s1 as [|x s1 IH]; [reflexivity |].
  change (String x s1 +:+ s2) with (String x (s1 +:+ s2)).
  cbn [Spec.free_of]. rewrite IH, andb_assoc. reflexivity.
Qed.

(** An endpoint written anchor, minus sign, offset: the offset is the value
    of [sub]. *)
Lemma endpoint_minus (anchor offset : string) :
  Spec.free_of "-" anchor = true -> Spec.free_of "+" anchor = true ->
  Spec.free_of "-" offset = true -> Spec.free_of "+" offset = true ->
  truthy offset = true ->
  Ranges.endpoint (anchor +:+ String "-" offset)
    = (anchor, Num 0, ParseInt.parseInt offset).
Proof.
  intros Ha Ha' Ho Ho' Ht. unfold Ranges.endpoint.
  rewrite (split_append "-" _ _ Ha), (split_free "-" _ Ho).
  rewrite (split_free "+").
  - cbn [Ranges.offset_of Ranges.first_of]. rewrite Ht. reflexivity.
  - rewrite free_of_append. cbn [Spec.free_of]. rewrite Ha', Ho'. reflexivity.
Qed.

(** An endpoint written anchor, plus sign, offset: the offset is the value
    of [add]. *)
Lemma endpoint_plus (anchor offset : string) :
  Spec.free_of "-" anchor = true -> Spec.free_of "+" anchor = true ->
  Spec.free_of "-" offset = true -> Spec.free_of "+" offset = true ->
  truthy offset = true ->
  Ranges.endpoint (anchor +:+ String "+" offset)
    = (anchor, ParseInt.parseInt offset, Num 0).
Proof.
  intros Ha Ha' Ho Ho' Ht. unfold Ranges.endpoint.
  rewrite (split_append "+" _ _ Ha'), (split_free "+" _ Ho').
  rewrite (split_free "-").
  - cbn [Ranges.offset_of Ranges.first_of]. rewrite Ht. reflexivity.
  - rewrite free_of_append. cbn [Spec.free_of]. rewrite Ha, Ho. reflexivity.
Qed.

(** Both offsets are added to the value of the anchor; nothing is rounded
    when the sums are integers that a double holds. *)
Lemma coordinate_sum (z add sub : Z) :
  Spec.exact (z + add) -> Spec.exact (z + add + sub) ->
  Ranges.coordinate z (Num add) (Num sub) = Num (z + add + sub).
Proof.
  intros H1 H2. unfold Ranges.coordinate.
  rewrite (nadd_exact z add H1). apply nadd_exact, H2.
Qed.

(** A range from the start of the file to an endpoint written with a minus
    sign: the end is the value of the anchor plus the offset. *)
Lemma minus_stop_is_above_anchor (a : asset) (r : gmap string string)
    (anchor offset : string) (z n : Z) (label : option string) :
  Spec.free_of "-" anchor = true -> Spec.free_of "+" anchor = true ->
  Spec.free_of "~" anchor = true ->
  Spec.free_of "-" offset = true -> Spec.free_of "+" offset = true ->
  Spec.free_of "~" offset = true ->
  truthy offset = true ->
  Ranges.stop_anchor a r anchor = Ranges.Anchor z label ->
  ParseInt.parseInt offset = Num n ->
  Spec.exact z -> Spec.exact (z + n) ->
  Spec.range_of a r ("F~" +:+ anchor +:+ String "-" offset) = Some (Num 0, Num (z + n)).
Proof.
  intros Ha Ha' Ha'' Ho Ho' Ho'' Ht Hanchor Hn Hz Hzn.
  unfold Spec.range_of, Ranges.range_step.
  change ("F~" +:+ anchor +:+ String "-" offset)
    with (String "F" (String "~" (anchor +:+ String "-" offset))).
  assert (Hsplit : split "~" (String "F" (String "~" (anchor +:+ String "-" offset)))
                   = ["F"; anchor +:+ String "-" offset]).
  { cbn [split]. rewrite (split_free "~").
    - reflexivity.
    - rewrite free_of_append. cbn [Spec.free_of]. rewrite Ha'', Ho''. reflexivity. }
  rewrite Hsplit. cbn [Ranges.first_of lookup list_lookup].
  change (Ranges.endpoint "F") with ("F", Num 0, Num 0).
  change (Ranges.start_anchor a r "F") with (Ranges.Anchor 0 (Some "Start of file")).
  rewrite (endpoint_minus anchor offset Ha Ha' Ho Ho' Ht), Hanchor, Hn.
  lazy beta iota zeta.
  cbn [Ranges.ls_ranges fst app head Ranges.show_range_start Ranges.ls_rejected
       Ranges.show_range_stop Ranges.ls_summary].
  rewrite (coordinate_sum z 0 n) by (rewrite ?Z.add_0_r; assumption).
  rewrite Z.add_0_r. reflexivity.
Qed.

End EndpointFacts.

(** C1, on the code: on the example of the documentation of [b], with an
    asset of 100 bytes, a signature text of 4 characters and a signature
    segment that ends at 60, the anchors resolve as the claim says and [F+4]
    is 4, but [f-20] is resolved to 120: the offset after a minus sign is
    added, not subtracted. *)
Theorem minus_offset_is_added :
  let x := Fixture.run [Fixture.rsa_record "KEY"] (Fixture.with_range "F+4~S,s~f-20")
             false SEAL_initial in
  (validation (w_seal x.2) ≫= digest_ranges)
    = Some [(Num 4, Num 56); (Num 60, Num 120)].
Proof. vm_compute. reflexivity. Qed.

(** * Further properties *)

(** ** The scan of the attributes *)

Section ScanFacts.
Import JsString Parser.

Lemma append_cons (c : ascii) (s1 s2 : string) :
  String c s1 +:+ s2 = String c (s1 +:+ s2).
Proof. reflexivity. Qed.

Lemma append_empty (s : string) : EmptyString +:+ s = s.
Proof. reflexivity. Qed.

Lemma append_assoc (s1 s2 s3 : string) : (s1 +:+ s2) +:+ s3 = s1 +:+ s2 +:+ s3.
Proof.
  induction s1 as [|c s1 IH]; [reflexivity |].
  rewrite !append_cons, IH. reflexivity.
Qed.

Lemma length_append (s1 s2 : string) :
  String.length (s1 +:+ s2) = (String.length s1 + String.length s2)%nat.
Proof.
  induction s1 as [|c s1 IH]; [reflexivity |].
  rewrite append_cons. cbn [String.length]. rewrite IH. reflexivity.
Qed.

Lemma eqc_true (a b : ascii) : eqc a b = true <-> a = b.
Proof. apply Ascii.eqb_eq. Qed.

Lemma eqc_false (a b : ascii) : eqc a b = false <-> a ≠ b.
Proof. apply Ascii.eqb_neq. Qed.

Lemma starts_with_append (p s : string) : starts_with p (p +:+ s) = true.
Proof.
  induction p as [|c p IH]; [destruct s; reflexivity |].
  rewrite append_cons. cbn [starts_with]. unfold eqc. rewrite Ascii.eqb_refl. exact IH.
Qed.

Lemma includes_cons (p : string) (c : ascii) (s : string) :
  includes p s = true -> includes p (String c s) = true.
Proof. intros H. cbn [includes]. rewrite H. apply orb_true_r. Qed.

Lemma includes_here (p s : string) : includes p (p +:+ s) = true.
Proof.
  destruct (p +:+ s) eqn:E; cbn [includes];
    rewrite <- E, starts_with_append; reflexivity.
Qed.

Lemma includes_append (p pre s : string) :
  includes p s = true -> includes p (pre +:+ s) = true.
Proof.
  intros H. induction pre as [|c pre IH]; [exact H |].
  rewrite append_cons. apply includes_cons, IH.
Qed.

(** The value of a match: the text up to the next double quote, on one
    line. *)
Lemma lazy_value_spec (s v : string) (n : nat) :
  lazy_value s = Some (v, n) ->
  Spec.free_of dquote v = true /\ Cover.one_line v = true
  /\ n = S (String.length v) /\ s = v +:+ q +:+ drop n s.
Proof.
  revert v n. induction s as [|c s IH]; intros v n H; [discriminate H |].
  cbn [lazy_value] in H. destruct (eqc c dquote) eqn:Hq.
  - injection H as <- <-. apply eqc_true in Hq as ->. repeat split.
  - destruct (is_line_terminator c) eqn:Hlt; [discriminate H |].
    destruct (lazy_value s) as [[v' n']|] eqn:Hv; [|discriminate H].
    injection H as <- <-. destruct (IH v' n' eq_refl) as (Hf & Hl & -> & Hs).
    cbn [Spec.free_of Cover.one_line String.length drop]. rewrite Hq, Hlt, Hf, Hl.
    repeat split. rewrite append_cons. f_equal. exact Hs.
Qed.

Lemma lazy_value_plain (v rest : string) :
  Spec.free_of dquote v = true -> Cover.one_line v = true ->
  lazy_value (v +:+ q +:+ rest) = Some (v, S (String.length v)).
Proof.
  induction v as [|c v IH]; intros Hf Hl.
  - reflexivity.
  - cbn [Spec.free_of Cover.one_line] in Hf, Hl.
    apply andb_true_iff in Hf as [Hc Hf]. apply andb_true_iff in Hl as [Hlt Hl].
    apply negb_true_iff in Hc, Hlt.
    rewrite append_cons. cbn [lazy_value String.length]. rewrite Hc, Hlt, (IH Hf Hl).
    reflexivity.
Qed.

(** A match of the pattern without its optional space. *)
Lemma lazy_key_spec (s k v : string) (n : nat) :
  lazy_key s = Some (k, v, n) ->
  Cover.one_line k = true /\ Spec.free_of dquote v = true /\ Cover.one_line v = true
  /\ n = (String.length k + String.length v + 3)%nat
  /\ s = k +:+ "=" +:+ q +:+ v +:+ q +:+ drop n s.
Proof.
  revert k v n. induction s as [|c s IH]; intros k v n H.
  - discriminate H.
  - cbn [lazy_key] in H.
    change ("=" +:+ q) with (String "=" (String dquote EmptyString)) in H.
    destruct (starts_with (String "=" (String dquote EmptyString)) (String c s)) eqn:Hhere.
    + destruct (lazy_value (drop 2 (String c s))) as [[v' n']|] eqn:Hv.
      * injection H as <- <- <-.
        destruct (lazy_value_spec _ _ _ Hv) as (Hf & Hl & -> & Hs).
        repeat split; try assumption.
        -- cbn [String.length]. lia.
        -- rewrite append_empty.
           cbn [starts_with] in Hhere. apply andb_true_iff in Hhere as [H1 H2].
           apply eqc_true in H1 as <-.
           destruct s as [|c' s]; [discriminate H2 |].
           apply andb_true_iff in H2 as [H2 _]. apply eqc_true in H2 as <-.
           cbn [drop] in Hv, Hs |- *.
           change ("=" +:+ q +:+ v' +:+ q +:+ drop (String.length v') (drop 1 s))
             with (String "=" (String dquote (v' +:+ q +:+ drop (String.length v') (drop 1 s)))).
           do 2 f_equal. exact Hs.
      * destruct (is_line_terminator c) eqn:Hlt; [discriminate H |].
        destruct (lazy_key s) as [[[k' v'] n']|] eqn:Hk; [|discriminate H].
        injection H as <- <- <-. destruct (IH _ _ _ eq_refl) as (Hl & Hf & Hl' & -> & Hs).
        cbn [Cover.one_line String.length drop]. rewrite Hlt, Hl.
        repeat split; try assumption. rewrite append_cons. f_equal. exact Hs.
    + destruct (is_line_terminator c) eqn:Hlt; [discriminate H |].
      destruct (lazy_key s) as [[[k' v'] n']|] eqn:Hk; [|discriminate H].
      injection H as <- <- <-. destruct (IH _ _ _ eq_refl) as (Hl & Hf & Hl' & -> & Hs).
      cbn [Cover.one_line String.length drop]. rewrite Hlt, Hl.
      repeat split; try assumption. rewrite append_cons. f_equal. exact Hs.
Qed.

Lemma match_at_spec (s k v : string) (n : nat) :
  match_at s = Some (k, v, n) ->
  Cover.one_line k = true /\ Spec.free_of dquote v = true /\ Cover.one_line v = true
  /\ (0 < n)%nat
  /\ includes (k +:+ "=" +:+ q +:+ v +:+ q) s = true.
Proof.
  assert (Hkey : forall s k v n, lazy_key s = Some (k, v, n) ->
            Cover.one_line k = true /\ Spec.free_of dquote v = true
            /\ Cover.one_line v = true /\ (0 < n)%nat
            /\ includes (k +:+ "=" +:+ q +:+ v +:+ q) s = true).
  { intros s0 k0 v0 n0 H. destruct (lazy_key_spec _ _ _ _ H) as (Hl & Hf & Hl' & -> & Hs).
    repeat split; try assumption; [lia |].
    rewrite Hs. rewrite <- !append_assoc. apply includes_here. }
  unfold match_at. destruct s as [|c s]; [apply Hkey |].
  destruct (Ascii.eqb c " ") eqn:Hsp.
  - apply Ascii.eqb_eq in Hsp as ->.
    destruct (lazy_key s) as [[[k' v'] n']|] eqn:Hk.
    + intros H. injection H as <- <- <-.
      destruct (Hkey _ _ _ _ Hk) as (Hl & Hf & Hl' & Hn & Hi).
      repeat split; try assumption; [lia |]. apply includes_cons, Hi.
    + apply Hkey.
  - assert (Hne : c ≠ " "%char) by (apply Ascii.eqb_neq; exact Hsp).
    intros H. apply Hkey.
    destruct c as [[] [] [] [] [] [] [] []]; try exact H. congruence.
Qed.

Lemma exec_all_spec (skip : nat) (s k v : string) :
  (k, v) ∈ exec_all skip s ->
  includes (k +:+ "=" +:+ q +:+ v +:+ q) s = true
  /\ Spec.free_of dquote v = true /\ Cover.one_line v = true /\ Cover.one_line k = true.
Proof.
  revert skip. induction s as [|c s IH]; intros skip Hin.
  - cbn in Hin. inversion Hin.
  - cbn [exec_all] in Hin. destruct skip as [|skip].
    + destruct (match_at (String c s)) as [[[k' v'] n']|] eqn:Hm.
      * apply elem_of_cons in Hin as [Heq|Hin].
        -- injection Heq as -> ->.
           destruct (match_at_spec _ _ _ _ Hm) as (Hl & Hf & Hl' & _ & Hi). auto.
        -- destruct (IH _ Hin) as (Hi & ?). split; [apply includes_cons, Hi | assumption].
      * destruct (IH _ Hin) as (Hi & ?). split; [apply includes_cons, Hi | assumption].
    + destruct (IH _ Hin) as (Hi & ?). split; [apply includes_cons, Hi | assumption].
Qed.

End ScanFacts.

(** X1: the scan invents nothing. Every pair it yields stands in the text as
    key, equals sign and quoted value; the value holds no double quote, and
    neither key nor value runs over a line end. *)
Theorem matches_are_occurrences (s k v : string) :
  (k, v) ∈ Parser.matches s ->
  JsString.includes (k +:+ "=" +:+ q +:+ v +:+ q) s = true
  /\ Spec.free_of dquote v = true
  /\ Cover.one_line v = true
  /\ Cover.one_line k = true.
Proof. apply exec_all_spec. Qed.

Lemma matches_are_occurrences_witness :
  ("d", "example.com") ∈ Parser.matches (Cover.attributes [("seal", "1"); ("d", "example.com")])
  /\ JsString.includes ("d" +:+ "=" +:+ q +:+ "example.com" +:+ q)
       (Cover.attributes [("seal", "1"); ("d", "example.com")]) = true.
Proof.
  assert (H : ("d", "example.com")
              ∈ Parser.matches (Cover.attributes [("seal", "1"); ("d", "example.com")])).
  { vm_compute. set_solver. }
  split; [exact H |]. exact (proj1 (matches_are_occurrences _ _ _ H)).
Defined.

(** ** A record segment written plainly *)

Section WrittenFacts.
Import JsString Parser.

Lemma append_empty_r (s : string) : s +:+ EmptyString = s.
Proof. induction s as [|c s IH]; [reflexivity |]. rewrite append_cons, IH. reflexivity. Qed.

Lemma free_of_head (x c : ascii) (s : string) :
  Spec.free_of x (String c s) = true -> eqc x c = false /\ Spec.free_of x s = true.
Proof.
  cbn [Spec.free_of]. intros [Hc Hs]%andb_true_iff. apply negb_true_iff in Hc.
  split; [|exact Hs]. apply eqc_false. apply eqc_false in Hc. congruence.
Qed.

Lemma lazy_key_plain (k v rest : string) :
  Spec.free_of dquote k = true -> Cover.one_line k = true ->
  Spec.free_of dquote v = true -> Cover.one_line v = true ->
  lazy_key (k +:+ "=" +:+ q +:+ v +:+ q +:+ rest)
    = Some (k, v, (String.length k + String.length v + 3)%nat).
Proof.
  intros Hk Hkl Hv Hvl. induction k as [|c k IH].
  - change (EmptyString +:+ "=" +:+ q +:+ v +:+ q +:+ rest)
      with (String "=" (String dquote (v +:+ q +:+ rest))).
    cbn [lazy_key]. change ("=" +:+ q) with (String "=" (String dquote EmptyString)).
    cbn [starts_with drop]. unfold eqc. rewrite !Ascii.eqb_refl. cbn [andb].
    rewrite (lazy_value_plain v rest Hv Hvl). cbn [String.length]. do 2 f_equal. lia.
  - destruct (free_of_head _ _ _ Hk) as [Hc Hk'].
    cbn [Cover.one_line] in Hkl. apply andb_true_iff in Hkl as [Hlt Hkl'].
    apply negb_true_iff in Hlt.
    rewrite append_cons. cbn [lazy_key].
    change ("=" +:+ q) with (String "=" (String dquote EmptyString)).
    assert (Hhere : starts_with (String "=" (String dquote EmptyString))
                      (String c (k +:+ "=" +:+ q +:+ v +:+ q +:+ rest)) = false).
    { cbn [starts_with]. apply andb_false_iff. right.
      destruct k as [|c' k].
      - reflexivity.
      - destruct (free_of_head _ _ _ Hk') as [Hc' _].
        rewrite append_cons. cbn [starts_with]. rewrite Hc'. reflexivity. }
    rewrite Hhere, Hlt, (IH Hk' Hkl'). cbn [String.length]. reflexivity.
Qed.

Lemma match_at_other (c : ascii) (s : string) :
  c ≠ " "%char -> match_at (String c s) = lazy_key (String c s).
Proof.
  intros Hc. unfold match_at.
  destruct c as [[] [] [] [] [] [] [] []]; try reflexivity. congruence.
Qed.

Lemma exec_all_skip (s1 s2 : string) :
  exec_all (String.length s1) (s1 +:+ s2) = exec_all O s2.
Proof.
  induction s1 as [|c s1 IH]; [reflexivity |].
  rewrite append_cons. cbn [String.length exec_all]. exact IH.
Qed.

Lemma exec_all_match (c : ascii) (s0 rest k v : string) :
  match_at (String c s0 +:+ rest) = Some (k, v, S (String.length s0)) ->
  exec_all O (String c s0 +:+ rest) = (k, v) :: exec_all O rest.
Proof.
  intros H. rewrite append_cons in *. cbn [exec_all]. rewrite H.
  rewrite Nat.sub_1_r. cbn [Nat.pred]. rewrite exec_all_skip. reflexivity.
Qed.

Lemma plain_parts (kv : string * string) :
  Cover.plain kv = true ->
  Spec.free_of dquote kv.1 = true /\ Cover.one_line kv.1 = true
  /\ Spec.free_of " " kv.1 = true /\ Cover.markup_free kv.1 = true
  /\ Spec.free_of dquote kv.2 = true /\ Cover.one_line kv.2 = true
  /\ Cover.markup_free kv.2 = true.
Proof.
  unfold Cover.plain, Cover.plain_key, Cover.plain_value.
  rewrite !andb_true_iff. tauto.
Qed.

Lemma attribute_head (kv : string * string) (rest : string) :
  Spec.free_of " " kv.1 = true ->
  exists c s0,
    c ≠ " "%char
    /\ Cover.attribute kv +:+ rest = String c s0 +:+ rest
    /\ String.length (String c s0) = (String.length kv.1 + String.length kv.2 + 3)%nat.
Proof.
  intros Hsp. unfold Cover.attribute. destruct kv as [[|c k] v]; cbn [fst snd] in *.
  - exists "="%char, (q +:+ v +:+ q). split; [discriminate |]. split; [reflexivity |].
    cbn [String.length]. rewrite !length_append. unfold q. cbn [String.length]. lia.
  - destruct (free_of_head _ _ _ Hsp) as [Hc _]. apply eqc_false in Hc.
    exists c, (k +:+ "=" +:+ q +:+ v +:+ q). split; [congruence |].
    split; [reflexivity |].
    cbn [String.length]. rewrite !length_append. unfold q. cbn [String.length]. lia.
Qed.

Lemma attribute_append (kv : string * string) (rest : string) :
  Cover.attribute kv +:+ rest = kv.1 +:+ "=" +:+ q +:+ kv.2 +:+ q +:+ rest.
Proof. unfold Cover.attribute. rewrite !append_assoc. reflexivity. Qed.

(** One attribute at the head of the text, after a space or not. *)
Lemma exec_all_attribute (kv : string * string) (rest : string) :
  Cover.plain kv = true ->
  exec_all O (Cover.attribute kv +:+ rest) = kv :: exec_all O rest
  /\ exec_all O (" " +:+ Cover.attribute kv +:+ rest) = kv :: exec_all O rest.
Proof.
  intros Hplain. destruct (plain_parts kv Hplain) as (Hk & Hkl & Hsp & _ & Hv & Hvl & _).
  pose proof (lazy_key_plain kv.1 kv.2 rest Hk Hkl Hv Hvl) as Hkey.
  rewrite <- attribute_append in Hkey.
  destruct (attribute_head kv rest Hsp) as (c & s0 & Hc & Heq & Hlen).
  assert (Hn : (String.length kv.1 + String.length kv.2 + 3)%nat = S (String.length s0))
    by (rewrite <- Hlen; reflexivity).
  split.
  - rewrite Heq. rewrite (exec_all_match c s0 rest kv.1 kv.2).
    + destruct kv; reflexivity.
    + rewrite append_cons, (match_at_other c _ Hc), <- append_cons, <- Heq, Hkey, Hn.
      reflexivity.
  - change (" " +:+ Cover.attribute kv +:+ rest)
      with (String " " (Cover.attribute kv +:+ rest)).
    cbn [exec_all]. unfold match_at. rewrite Hkey.
    rewrite Nat.sub_1_r. cbn [Nat.pred]. rewrite Heq, Hn.
    change (S (String.length s0)) with (String.length (String c s0)).
    rewrite exec_all_skip. destruct kv; reflexivity.
Qed.

Lemma attributes_cons (kv kv' : string * string) (rest : list (string * string)) :
  Cover.attributes (kv :: kv' :: rest)
    = Cover.attribute kv +:+ " " +:+ Cover.attributes (kv' :: rest).
Proof. reflexivity. Qed.

Lemma exec_all_attributes (kvs : list (string * string)) :
  forallb Cover.plain kvs = true ->
  exec_all O (Cover.attributes kvs) = kvs
  /\ (kvs ≠ [] -> exec_all O (" " +:+ Cover.attributes kvs) = kvs).
Proof.
  induction kvs as [|kv [|kv' rest] IH]; intros Hplain.
  - split; [reflexivity | congruence].
  - cbn [forallb] in Hplain. apply andb_true_iff in Hplain as [Hkv _].
    destruct (exec_all_attribute kv EmptyString Hkv) as [H1 H2].
    rewrite !append_empty_r in H1, H2. cbn [Cover.attributes].
    split; [exact H1 | intros _; exact H2].
  - cbn [forallb] in Hplain. apply andb_true_iff in Hplain as [Hkv Hrest].
    destruct (IH Hrest) as [_ IH']. specialize (IH' ltac:(discriminate)).
    rewrite attributes_cons.
    destruct (exec_all_attribute kv (" " +:+ Cover.attributes (kv' :: rest)) Hkv)
      as [H1 H2].
    rewrite H1, H2, IH'. split; [reflexivity | intros _; reflexivity].
Qed.

(** *** The cleaning leaves plain attributes alone *)

Lemma remove_open_tag (body : string) :
  remove_first_match open_tag ("<seal " +:+ body) = body.
Proof. reflexivity. Qed.

Lemma starts_with_gt (b : string) :
  Spec.free_of ">" b = true -> starts_with ">" (b +:+ "/>") = false.
Proof.
  destruct b as [|c b]; [reflexivity |]. intros H.
  destruct (free_of_head _ _ _ H) as [Hc _].
  rewrite append_cons. cbn [starts_with]. rewrite Hc. reflexivity.
Qed.

Lemma close_tag_inside (c : ascii) (b : string) :
  Spec.free_of ">" b = true -> (c = "?"%char -> b ≠ EmptyString) ->
  close_tag (String c (b +:+ "/>")) = None.
Proof.
  intros Hb Hq. unfold close_tag.
  assert (H2 : starts_with "/>" (String c (b +:+ "/>")) = false).
  { change (starts_with "/>" (String c (b +:+ "/>")))
      with (eqc "/" c && starts_with ">" (b +:+ "/>")).
    rewrite (starts_with_gt b Hb). apply andb_false_r. }
  assert (H3 : starts_with "?/>" (String c (b +:+ "/>")) = false).
  { change (starts_with "?/>" (String c (b +:+ "/>")))
      with (eqc "?" c && starts_with "/>" (b +:+ "/>")).
    destruct (eqc "?" c) eqn:Hc; [|reflexivity].
    apply eqc_true in Hc. symmetry in Hc. specialize (Hq Hc).
    destruct b as [|c1 b]; [congruence |].
    destruct (free_of_head _ _ _ Hb) as [_ Hb'].
    rewrite append_cons.
    change (starts_with "/>" (String c1 (b +:+ "/>")))
      with (eqc "/" c1 && starts_with ">" (b +:+ "/>")).
    rewrite (starts_with_gt b Hb'). cbn [andb]. apply andb_false_r. }
  rewrite H3, H2. reflexivity.
Qed.

Lemma remove_close_tag (body : string) :
  Spec.free_of ">" body = true -> last_char body ≠ Some "?"%char ->
  remove_first_match close_tag (body +:+ "/>") = body.
Proof.
  induction body as [|c b IH]; intros Hfree Hlast; [reflexivity |].
  destruct (free_of_head _ _ _ Hfree) as [_ Hb].
  rewrite append_cons. cbn [remove_first_match].
  rewrite close_tag_inside.
  - f_equal. apply IH; [exact Hb |].
    destruct b as [|c' b]; [discriminate | exact Hlast].
  - exact Hb.
  - intros -> ->. apply Hlast. reflexivity.
Qed.

Lemma replace_all_absent (c0 : ascii) (p r s : string) :
  Spec.free_of c0 s = true -> replace_all (String c0 p) r s = s.
Proof.
  unfold replace_all. induction s as [|c s IH]; intros H; [reflexivity |].
  destruct (free_of_head _ _ _ H) as [Hc Hs].
  cbn [replace_all_from starts_with]. rewrite Hc. cbn [andb]. rewrite (IH Hs).
  reflexivity.
Qed.

Lemma replace_first_absent (c0 : ascii) (p r s : string) :
  Spec.free_of c0 s = true -> replace_first (String c0 p) r s = s.
Proof.
  induction s as [|c s IH]; intros H; [reflexivity |].
  destruct (free_of_head _ _ _ H) as [Hc Hs].
  cbn [replace_first starts_with]. rewrite Hc. cbn [andb]. rewrite (IH Hs).
  reflexivity.
Qed.

Lemma replace_first_absent_second (c0 c1 : ascii) (p r s : string) :
  Spec.free_of c1 s = true -> replace_first (String c0 (String c1 p)) r s = s.
Proof.
  induction s as [|c s IH]; intros H; [reflexivity |].
  destruct (free_of_head _ _ _ H) as [_ Hs].
  cbn [replace_first starts_with].
  assert (Hno : eqc c0 c && match s with
                            | EmptyString => false
                            | String b s' => eqc c1 b && starts_with p s'
                            end = false).
  { apply andb_false_iff. right. destruct s as [|b s']; [reflexivity |].
    destruct (free_of_head _ _ _ Hs) as [Hb _]. rewrite Hb. reflexivity. }
  rewrite Hno, (IH Hs). reflexivity.
Qed.

Lemma free_of_attribute (x : ascii) (kv : string * string) :
  x ≠ "="%char -> x ≠ dquote ->
  Spec.free_of x kv.1 = true -> Spec.free_of x kv.2 = true ->
  Spec.free_of x (Cover.attribute kv) = true.
Proof.
  intros H1 H2 Hk Hv. unfold Cover.attribute.
  assert (Heq : eqc "=" x = false) by (apply eqc_false; congruence).
  assert (Hq : eqc dquote x = false) by (apply eqc_false; congruence).
  rewrite !free_of_append, Hk, Hv. unfold q. cbn [Spec.free_of]. rewrite Heq, Hq.
  reflexivity.
Qed.

Lemma free_of_attributes (x : ascii) (kvs : list (string * string)) :
  x ≠ "="%char -> x ≠ dquote -> x ≠ " "%char ->
  Forall (fun kv => Spec.free_of x kv.1 = true /\ Spec.free_of x kv.2 = true) kvs ->
  Spec.free_of x (Cover.attributes kvs) = true.
Proof.
  intros H1 H2 H3. induction kvs as [|kv [|kv' rest] IH]; intros Hall.
  - reflexivity.
  - apply Forall_cons in Hall as [[Hk Hv] _]. apply free_of_attribute; assumption.
  - apply Forall_cons in Hall as [[Hk Hv] Hrest].
    rewrite attributes_cons, !free_of_append, (free_of_attribute x kv H1 H2 Hk Hv), (IH Hrest).
    cbn [Spec.free_of]. assert (Hsp : eqc " " x = false) by (apply eqc_false; congruence).
    rewrite Hsp. reflexivity.
Qed.

Lemma last_char_append (s1 s2 : string) :
  s2 ≠ EmptyString -> last_char (s1 +:+ s2) = last_char s2.
Proof.
  intros H. induction s1 as [|c s1 IH]; [reflexivity |].
  rewrite append_cons. cbn [last_char]. rewrite IH.
  destruct (s1 +:+ s2) eqn:E; [|reflexivity].
  destruct s1; [rewrite append_empty in E; congruence | discriminate E].
Qed.

Lemma last_char_attributes (kvs : list (string * string)) :
  last_char (Cover.attributes kvs) ≠ Some "?"%char.
Proof.
  induction kvs as [|kv [|kv' rest] IH].
  - discriminate.
  - cbn [Cover.attributes]. unfold Cover.attribute.
    rewrite <- !append_assoc, last_char_append by discriminate. discriminate.
  - rewrite attributes_cons, <- append_assoc, last_char_append; [exact IH |].
    cbn [Cover.attributes]. unfold Cover.attribute.
    destruct rest; destruct (kv'.1); discriminate.
Qed.

Lemma plain_free (x : ascii) (kvs : list (string * string)) :
  x = "&"%char \/ x = "<"%char \/ x = ">"%char ->
  forallb Cover.plain kvs = true ->
  Spec.free_of x (Cover.attributes kvs) = true.
Proof.
  intros Hx Hplain.
  apply free_of_attributes; [(destruct Hx as [-> | [-> | ->]]; discriminate).. |].
  apply Forall_forall. intros kv Hin.
  assert (Hkv : Cover.plain kv = true).
  { rewrite forallb_forall in Hplain. apply Hplain, list_elem_of_In, Hin. }
  destruct (plain_parts kv Hkv) as (_ & _ & _ & Hmk & _ & _ & Hmv).
  unfold Cover.markup_free in Hmk, Hmv. rewrite !andb_true_iff in Hmk, Hmv.
  destruct Hx as [-> | [-> | ->]]; tauto.
Qed.

Lemma clean_written (kvs : list (string * string)) :
  forallb Cover.plain kvs = true ->
  clean (Cover.written kvs) = Cover.attributes kvs.
Proof.
  intros Hplain. unfold clean, Cover.written.
  rewrite remove_open_tag.
  rewrite remove_close_tag;
    [|apply plain_free; auto | apply last_char_attributes].
  rewrite replace_all_absent by (apply plain_free; auto).
  rewrite (replace_first_absent "<" _ _ (Cover.attributes kvs))
    by (apply plain_free; auto).
  rewrite (replace_first_absent_second "/" "&" _ _ (Cover.attributes kvs))
    by (apply plain_free; auto).
  rewrite replace_first_absent by (apply plain_free; auto).
  reflexivity.
Qed.

End WrittenFacts.

(** X2: a record segment written as [<seal], the attributes as key, equals
    sign and quoted value with one space between two of them, and [/>], is
    read back as exactly these attributes, in order, provided keys and values
    are plain: no double quote, line end, [&], [<] or [>], and no space in a
    key. *)
Theorem written_attributes_are_read_back (kvs : list (string * string)) :
  forallb Cover.plain kvs = true ->
  Parser.matches (Parser.clean (Cover.written kvs)) = kvs.
Proof.
  intros Hplain. rewrite (clean_written kvs Hplain).
  exact (proj1 (exec_all_attributes kvs Hplain)).
Qed.

Lemma written_attributes_are_read_back_witness :
  forallb Cover.plain [("seal", "1"); ("d", "example.com"); ("s", "ab/cd+e==")] = true
  /\ Parser.matches
       (Parser.clean (Cover.written [("seal", "1"); ("d", "example.com"); ("s", "ab/cd+e==")]))
     = [("seal", "1"); ("d", "example.com"); ("s", "ab/cd+e==")].
Proof.
  split; [reflexivity |].
  apply (written_attributes_are_read_back
           [("seal", "1"); ("d", "example.com"); ("s", "ab/cd+e==")]).
  reflexivity.
Defined.

(** ** Repeated attributes *)




(** ** What [parse] stores *)

Lemma digest_name_truthy (da : option string) :
  JsString.truthy (Parser.digest_name da) = true.
Proof. unfold Parser.digest_name. repeat case_bool_decide; reflexivity. Qed.

(** X3: [parse] either stores a record in which [seal], [d], [ka], [s] and
    [da] are all present and not empty, or throws the error of an incomplete
    record because one of the first four is missing or empty in the segment;
    there is no third outcome for an asset with a segment. *)
Theorem parse_stores_complete_records (a : asset) (sg : segment) (rest : list segment) :
  seal_segments a = Some (sg :: rest) ->
  (exists r,
      (Parser.parse a).2 = inr r
      /\ Forall (fun k => is_truthy (Parser.extract (seg_string sg) !! k) = true)
           ["seal"; "d"; "ka"; "s"]
      /\ Forall (fun k => is_truthy (r !! k) = true) ["seal"; "d"; "ka"; "s"; "da"])
  \/ ((Parser.parse a).2 = inl Parser.incomplete_error
      /\ exists k, k ∈ ["seal"; "d"; "ka"; "s"]
                   /\ is_truthy (Parser.extract (seg_string sg) !! k) = false).
Proof.
  intros Hseg. rewrite (parse_unfold a sg rest Hseg). cbn [snd].
  destruct (Parser.complete (Parser.extract (seg_string sg))) eqn:Hc.
  - left. eexists. split; [reflexivity |].
    unfold Parser.complete in Hc. rewrite !andb_true_iff in Hc.
    destruct Hc as [[[H1 H2] H3] H4].
    split; [repeat constructor; assumption |].
    repeat constructor; rewrite ?normalise_da_other by discriminate; try assumption.
    rewrite normalise_da_da. apply digest_name_truthy.
  - right. split; [reflexivity |].
    unfold Parser.complete in Hc.
    repeat (apply andb_false_iff in Hc as [Hc|Hc]);
      eexists; (split; [|exact Hc]); set_solver.
Qed.

Lemma parse_stores_complete_records_witness :
  seal_segments Fixture.without_seal = Some [Fixture.segment_of Fixture.without_seal]
  /\ (Parser.parse Fixture.without_seal).2 = inl Parser.incomplete_error.
Proof.
  assert (Hseg : seal_segments Fixture.without_seal
                 = Some [Fixture.segment_of Fixture.without_seal]) by reflexivity.
  split; [exact Hseg |].
  destruct (parse_stores_complete_records _ _ _ Hseg) as [(r & Hr & _)|[H _]];
    [vm_compute in Hr; discriminate Hr | exact H].
Defined.

(** X4: the shift of [signature_end] is made by every call. Parsing the
    asset that a first call on an entity-escaped segment has left moves the
    offset back again: after two calls it is 10 below what the caller
    passed. *)
Theorem parse_twice_shifts_twice (a : asset) (sg : segment) (rest : list segment) :
  seal_segments a = Some (sg :: rest) ->
  JsString.includes "&quot;" (seg_string sg) = true ->
  Ranges.first_signature_end (Parser.parse a).1 = Some (signature_end sg - 5)
  /\ Ranges.first_signature_end (Parser.parse (Parser.parse a).1).1
     = Some (signature_end sg - 10).
Proof.
  intros Hseg Hq. rewrite (parse_unfold a sg rest Hseg). cbn [fst].
  assert (Hadj : Parser.adjust sg = mkSegment (seg_string sg) (signature_end sg - 5))
    by (unfold Parser.adjust; rewrite Hq; reflexivity).
  rewrite Hadj. split; [reflexivity |].
  rewrite (parse_unfold
             (set_seal_segments (mkSegment (seg_string sg) (signature_end sg - 5) :: rest) a)
             (mkSegment (seg_string sg) (signature_end sg - 5)) rest) by reflexivity.
  cbn [fst]. unfold Parser.adjust. cbn [seg_string signature_end]. rewrite Hq.
  unfold Ranges.first_signature_end. cbn. f_equal. lia.
Qed.

Lemma parse_twice_shifts_twice_witness :
  seal_segments Fixture.escaped = Some [Fixture.segment_of Fixture.escaped]
  /\ JsString.includes "&quot;" (seg_string (Fixture.segment_of Fixture.escaped)) = true
  /\ Ranges.first_signature_end (Parser.parse (Parser.parse Fixture.escaped).1).1 = Some 50.
Proof.
  assert (Hseg : seal_segments Fixture.escaped = Some [Fixture.segment_of Fixture.escaped])
    by reflexivity.
  assert (Hq : JsString.includes "&quot;" (seg_string (Fixture.segment_of Fixture.escaped))
               = true) by reflexivity.
  split; [exact Hseg |]. split; [exact Hq |].
  exact (proj2 (parse_twice_shifts_twice _ _ _ Hseg Hq)).
Defined.

(** ** The ranges and the digest *)

Section MoreRangeFacts.
Import JsString Ranges.

Variable a : asset.
Variable r : gmap string string.

Lemma range_step_keeps_rejection (t : string) (st : loop_state) (e : js_error) :
  ls_rejected st = Some e -> ls_rejected (range_step a r t st).1 = Some e.
Proof.
  intros He. unfold range_step.
  destruct (endpoint (first_of _)) as [[anchor add] sub].
  destruct (start_anchor a r anchor) as [z label| |]; cbn; rewrite ?He; try reflexivity.
  destruct (split "~" t !! 1%nat) as [stop|]; cbn; [|rewrite ?He; reflexivity].
  destruct (endpoint stop) as [[anchor' add'] sub'].
  destruct (stop_anchor a r anchor') as [z' label'| |]; cbn; rewrite ?He; reflexivity.
Qed.

Lemma forEach_keeps_rejection (toks : list string) (st : loop_state) (e : js_error) :
  ls_rejected st = Some e -> ls_rejected (forEach a r toks st).1 = Some e.
Proof.
  revert st. induction toks as [|t ts IH]; intros st He; [exact He |].
  cbn [forEach]. pose proof (range_step_keeps_rejection t st e He) as Hstep.
  destruct (range_step a r t st) as [st' [|]]; cbn [fst] in Hstep |- *.
  - apply IH, Hstep.
  - exact Hstep.
Qed.

(** A callback that ends without an error has pushed the range of its
    token. *)
Lemma range_step_pushes (t : string) (st st' : loop_state) :
  range_step a r t st = (st', Done) -> ls_rejected st' = None ->
  exists rg, Spec.range_of a r t = Some rg /\ ls_ranges st' = ls_ranges st ++ [rg].
Proof.
  intros Hstep Hnone.
  pose proof (range_step_ranges a r t st) as Hranges. rewrite Hstep in Hranges.
  cbn [fst] in Hranges.
  assert (Hst : ls_rejected st = None).
  { destruct (ls_rejected st) as [e|] eqn:He; [|reflexivity].
    pose proof (range_step_keeps_rejection t st e He) as H. rewrite Hstep in H.
    cbn [fst] in H. congruence. }
  destruct (Spec.range_of a r t) as [rg|] eqn:Hrg; [eauto |].
  exfalso. revert Hstep Hrg. unfold Spec.range_of, range_step.
  destruct (endpoint (first_of _)) as [[anchor add] sub].
  destruct (start_anchor a r anchor) as [z label| |]; cbn.
  - destruct (split "~" t !! 1%nat) as [stop|]; cbn; [|discriminate].
    destruct (endpoint stop) as [[anchor' add'] sub'].
    destruct (stop_anchor a r anchor') as [z' label'| |]; cbn; try discriminate.
    intros H. injection H as <-. cbn in Hnone. rewrite Hst in Hnone. discriminate.
  - intros H. injection H as <-. cbn in Hnone. rewrite Hst in Hnone. discriminate.
  - discriminate.
Qed.

Lemma forEach_all (toks : list string) (st st' : loop_state) :
  forEach a r toks st = (st', Done) -> ls_rejected st' = None ->
  exists rs,
    ls_ranges st' = ls_ranges st ++ rs
    /\ Forall2 (fun t rg => Spec.range_of a r t = Some rg) toks rs.
Proof.
  revert st. induction toks as [|t ts IH]; intros st Hloop Hnone.
  - injection Hloop as <-. exists []. rewrite app_nil_r. split; [reflexivity | constructor].
  - cbn [forEach] in Hloop.
    destruct (range_step a r t st) as [st1 [|]] eqn:Hstep; [|discriminate Hloop].
    destruct (IH st1 Hloop Hnone) as (rs & Hrs & Hall).
    assert (H1 : ls_rejected st1 = None).
    { destruct (ls_rejected st1) as [e|] eqn:He; [|reflexivity].
      pose proof (forEach_keeps_rejection ts st1 e He) as H. rewrite Hloop in H.
      cbn [fst] in H. congruence. }
    destruct (range_step_pushes t st st1 Hstep H1) as (rg & Hrg & Hpush).
    exists (rg :: rs). split.
    + rewrite Hrs, Hpush, <- app_assoc. reflexivity.
    + constructor; assumption.
Qed.

(** A range without the tilde: once its start has resolved, the callback
    throws on the stop that is not there. *)
Lemma range_step_without_tilde (t anchor : string) (add sub : number) (z : Z)
    (label : option string) (st : loop_state) :
  Spec.free_of "~" t = true ->
  endpoint t = (anchor, add, sub) ->
  start_anchor a r anchor = Anchor z label ->
  (range_step a r t st).2 = Threw
  /\ ls_ranges (range_step a r t st).1 = ls_ranges st
  /\ ls_summary (range_step a r t st).1 = ls_summary st
  /\ ls_rejected (range_step a r t st).1 = ls_rejected st.
Proof.
  intros Hfree Hend Hanchor. unfold range_step.
  rewrite (split_free "~" t Hfree). cbn [first_of lookup list_lookup].
  rewrite Hend, Hanchor. cbn. auto.
Qed.

End MoreRangeFacts.

(** X5: once a callback of the range loop has rejected the promise, the
    error it gave stays the one reported: the ranges that follow, resolved or
    not, do not replace it. *)
Theorem first_rejection_is_kept (a : asset) (r : gmap string string)
    (digest_ranges : list string) (st : Ranges.loop_state) (e : js_error) :
  Ranges.ls_rejected st = Some e ->
  Ranges.ls_rejected (Ranges.forEach a r digest_ranges st).1 = Some e.
Proof. apply forEach_keeps_rejection. Qed.

Lemma first_rejection_is_kept_witness :
  let st := (Ranges.range_step Fixture.unsigned ∅ "X~f"
               (Ranges.mkLoop [] EmptyString None None None)).1 in
  Ranges.ls_rejected st = Some (Error "ranges start error")
  /\ Ranges.ls_rejected (Ranges.forEach Fixture.unsigned ∅ ["F~Y"; "F~f"] st).1
     = Some (Error "ranges start error").
Proof.
  intros st.
  assert (H : Ranges.ls_rejected st = Some (Error "ranges start error")) by reflexivity.
  split; [exact H |].
  exact (first_rejection_is_kept Fixture.unsigned ∅ ["F~Y"; "F~f"] st _ H).
Defined.

(** X6: a range written start anchor, plus sign, offset, tilde, stop anchor,
    plus sign, offset resolves to the value of each anchor plus its offset,
    as long as the anchors and the two sums are integers that a double
    holds, up to 2^53 in magnitude: beyond, the additions of the code
    round. *)
Theorem plus_offsets_are_added (a : asset) (r : gmap string string)
    (sa so ea eo : string) (zs ze m n : Z) (ls le : option string) :
  Forall (fun s => Spec.free_of "-" s = true /\ Spec.free_of "+" s = true
                   /\ Spec.free_of "~" s = true) [sa; so; ea; eo] ->
  JsString.truthy so = true -> JsString.truthy eo = true ->
  Ranges.start_anchor a r sa = Ranges.Anchor zs ls ->
  Ranges.stop_anchor a r ea = Ranges.Anchor ze le ->
  ParseInt.parseInt so = Num m -> ParseInt.parseInt eo = Num n ->
  Spec.exact zs -> Spec.exact (zs + m) ->
  Spec.exact ze -> Spec.exact (ze + n) ->
  Spec.range_of a r ((sa +:+ String "+" so) +:+ String "~" (ea +:+ String "+" eo))
    = Some (Num (zs + m), Num (ze + n)).
Proof.
  intros Hfree Hso Heo Hsa Hea Hm Hn Hzs Hzsm Hze Hzen.
  apply Forall_cons in Hfree as [(Ha1 & Ha2 & Ha3) Hfree].
  apply Forall_cons in Hfree as [(Ho1 & Ho2 & Ho3) Hfree].
  apply Forall_cons in Hfree as [(Hb1 & Hb2 & Hb3) Hfree].
  apply Forall_cons in Hfree as [(Hp1 & Hp2 & Hp3) _].
  unfold Spec.range_of, Ranges.range_step.
  rewrite (split_append "~").
  2:{ rewrite free_of_append. cbn [Spec.free_of]. rewrite Ha3, Ho3. reflexivity. }
  rewrite (split_free "~").
  2:{ rewrite free_of_append. cbn [Spec.free_of]. rewrite Hb3, Hp3. reflexivity. }
  cbn [Ranges.first_of lookup list_lookup].
  rewrite (endpoint_plus sa so Ha1 Ha2 Ho1 Ho2 Hso), Hsa.
  rewrite (endpoint_plus ea eo Hb1 Hb2 Hp1 Hp2 Heo), Hea, Hm, Hn.
  lazy beta iota zeta.
  cbn [Ranges.ls_ranges fst app head Ranges.show_range_start Ranges.ls_rejected
       Ranges.show_range_stop Ranges.ls_summary].
  rewrite (coordinate_sum zs m 0), (coordinate_sum ze n 0)
    by (rewrite ?Z.add_0_r; assumption).
  rewrite !Z.add_0_r. reflexivity.
Qed.

Lemma plus_offsets_are_added_witness :
  Forall (fun s => Spec.free_of "-" s = true /\ Spec.free_of "+" s = true
                   /\ Spec.free_of "~" s = true) ["F"; "4"; "f"; "0x10"]
  /\ Forall Spec.exact [0; 0 + 4; 100; 100 + 16]
  /\ Spec.range_of Fixture.unsigned ∅ "F+4~f+0x10" = Some (Num 4, Num 116).
Proof.
  assert (H : Forall (fun s => Spec.free_of "-" s = true /\ Spec.free_of "+" s = true
                               /\ Spec.free_of "~" s = true) ["F"; "4"; "f"; "0x10"])
    by (repeat constructor).
  assert (Hzs : Spec.exact 0) by (unfold Spec.exact; lia).
  assert (Hzsm : Spec.exact (0 + 4)) by (unfold Spec.exact; lia).
  assert (Hze : Spec.exact 100) by (unfold Spec.exact; lia).
  assert (Hzen : Spec.exact (100 + 16)) by (unfold Spec.exact; lia).
  split; [exact H |]. split; [repeat constructor; assumption |].
  exact (plus_offsets_are_added Fixture.unsigned ∅ "F" "4" "f" "0x10" 0 100 4 16
           (Some "Start of file") (Some "End of file") H eq_refl eq_refl eq_refl eq_refl
           eq_refl eq_refl Hzs Hzsm Hze Hzen).
Defined.

Section DigestFacts.

Variable assembleBuffer : asset -> list range -> bytes.
Variable subtle_digest : option string -> bytes -> js_error + bytes.

(** X7: when the promise of [digest] resolves, every range of the
    expression has resolved, in order, to the ranges stored; the digest was
    requested once, for the buffer assembled from exactly these ranges, and
    [digest1] is the answer. *)
Theorem digest_resolves_with_the_digest_of_all_ranges (a : asset)
    (r : gmap string string) (v v' : sealValidation) (calls : list event) :
  digest assembleBuffer subtle_digest a r v = (v', Resolved tt, calls) ->
  exists (b : string) (ranges : list range) (d : bytes),
    r !! "b" = Some b
    /\ Forall2 (fun t rg => Spec.range_of a r t = Some rg) (JsString.split "," b) ranges
    /\ digest_ranges v' = Some ranges
    /\ subtle_digest (r !! "da") (assembleBuffer a ranges) = inr d
    /\ digest1 v' = Some d
    /\ calls = [SubtleDigest (r !! "da") (assembleBuffer a ranges)].
Proof.
  unfold digest. destruct (r !! "b") as [b|] eqn:Hb; [|discriminate].
  destruct (JsString.truthy b); [|discriminate].
  unfold Ranges.resolve.
  destruct (Ranges.forEach a r (JsString.split "," b) _) as [st ended] eqn:Hloop.
  destruct ended; [|destruct (Ranges.ls_rejected st); discriminate].
  destruct (Ranges.ls_rejected st) as [e|] eqn:Hrej; [discriminate |].
  destruct (subtle_digest _ _) as [e|d] eqn:Hd; [discriminate |].
  intros H. injection H as <- <-.
  destruct (forEach_all a r _ _ _ Hloop Hrej) as (rs & Hrs & Hall).
  cbn [Ranges.ls_ranges app] in Hrs. subst rs.
  exists b, (Ranges.ls_ranges st), d. repeat split; assumption.
Qed.

(** X8: a range expression that is one range without a tilde, whose start
    resolves, makes the callback throw: [digest] requests no digest and its
    promise is settled neither way. *)
Theorem range_without_tilde_never_settles (a : asset) (r : gmap string string)
    (v : sealValidation) (b anchor : string) (add sub : number) (z : Z)
    (label : option string) :
  r !! "b" = Some b ->
  JsString.truthy b = true ->
  Spec.free_of "," b = true -> Spec.free_of "~" b = true ->
  Ranges.endpoint b = (anchor, add, sub) ->
  Ranges.start_anchor a r anchor = Ranges.Anchor z label ->
  let out := digest assembleBuffer subtle_digest a r v in
  out.1.2 = Pending /\ out.2 = [] /\ digest1 out.1.1 = digest1 v
  /\ digest_ranges out.1.1 = Some [].
Proof.
  intros Hb Ht Hcomma Htilde Hend Hanchor. unfold digest. rewrite Hb, Ht.
  unfold Ranges.resolve. rewrite (split_free "," b Hcomma). cbn [Ranges.forEach].
  destruct (range_step_without_tilde a r b anchor add sub z label
              (Ranges.mkLoop [] (digest_summary (with_digest_ranges (Some []) v))
                 None None None) Htilde Hend Hanchor) as (Hthrew & Hr & Hs & Hrej).
  destruct (Ranges.range_step a r b _) as [st ended]. cbn [fst snd] in *. subst ended.
  rewrite Hrej, Hr. cbn. auto.
Qed.

End DigestFacts.

Lemma digest_resolves_with_the_digest_of_all_ranges_witness :
  let a := Fixture.with_range "F~S,s~f" in
  let r := Fixture.record_of a in
  let v' := with_digest1 (Some [])
              (with_digest_summary "Start of file to End of file"
                 (with_digest_ranges (Some [(Num 0, Num 56); (Num 60, Num 100)])
                    (fresh_validation false))) in
  digest Fixture.assemble Fixture.digest_of a r (fresh_validation false)
    = (v', Resolved tt, [SubtleDigest (Some "SHA-256") []])
  /\ exists (b : string) (ranges : list range) (d : bytes),
       r !! "b" = Some b
       /\ Forall2 (fun t rg => Spec.range_of a r t = Some rg) (JsString.split "," b) ranges
       /\ digest_ranges v' = Some ranges
       /\ Fixture.digest_of (r !! "da") (Fixture.assemble a ranges) = inr d
       /\ digest1 v' = Some d
       /\ [SubtleDigest (Some "SHA-256") []]
          = [SubtleDigest (r !! "da") (Fixture.assemble a ranges)].
Proof.
  intros a r v'.
  assert (H : digest Fixture.assemble Fixture.digest_of a r (fresh_validation false)
              = (v', Resolved tt, [SubtleDigest (Some "SHA-256") []]))
    by (vm_compute; reflexivity).
  split; [exact H |].
  exact (digest_resolves_with_the_digest_of_all_ranges Fixture.assemble Fixture.digest_of
           a r (fresh_validation false) v' _ H).
Defined.

Lemma range_without_tilde_never_settles_witness :
  let r : gmap string string := <["b" := "F"]> ∅ in
  let out := digest Fixture.assemble Fixture.digest_of Fixture.unsigned r
               (fresh_validation false) in
  r !! "b" = Some "F"
  /\ Ranges.endpoint "F" = ("F", Num 0, Num 0)
  /\ out.1.2 = Pending /\ out.2 = [].
Proof.
  intros r out.
  assert (Hb : r !! "b" = Some "F") by (vm_compute; reflexivity).
  split; [exact Hb |]. split; [reflexivity |].
  destruct (range_without_tilde_never_settles Fixture.assemble Fixture.digest_of
              Fixture.unsigned r (fresh_validation false) "F" "F" (Num 0) (Num 0) 0
              (Some "Start of file") Hb eq_refl eq_refl eq_refl eq_refl eq_refl)
    as (H1 & H2 & _).
  split; assumption.
Defined.

(** ** The signature formats *)

Lemma accuracy_of_other (format : string) (c : ascii) :
  JsString.last_char format = Some c ->
  Cover.is_digit c = false ->
  accuracy_of format = NaN.
Proof.
  intros Hlast Hd. unfold accuracy_of. rewrite Hlast.
  destruct c as [[] [] [] [] [] [] [] []]; try reflexivity; discriminate Hd.
Qed.

(** X9: a token of [sf] that contains [date] and does not end in a digit
    makes the timestamp the first 14 characters of the stored signature text
    and the residual signature text everything from offset 15 on; the
    character at offset 14 belongs to neither. *)
Theorem date_token_without_digit (s format : string) (c : ascii) (v : sealValidation) :
  JsString.includes "date" format = true ->
  JsString.last_char format = Some c ->
  Cover.is_digit c = false ->
  signature_date (apply_format s v format) = Some (JsString.take 14 s)
  /\ signature (apply_format s v format) = Some (JsString.drop 15 s).
Proof.
  intros Hdate Hlast Hd. unfold apply_format. rewrite Hdate.
  rewrite (accuracy_of_other format c Hlast Hd). unfold split_date.
  cbn [signature_date signature with_signature_date with_signature].
  rewrite (substring_head 14), (substring_tail 15) by lia. split; reflexivity.
Qed.

Lemma date_token_without_digit_witness :
  JsString.includes "date" "date" = true
  /\ JsString.last_char "date" = Some "e"%char
  /\ Cover.is_digit "e" = false
  /\ signature_date (apply_format "20240326164401:deadbeef" (fresh_validation false) "date")
     = Some "20240326164401"
  /\ signature (apply_format "20240326164401:deadbeef" (fresh_validation false) "date")
     = Some "deadbeef".
Proof.
  split; [reflexivity |]. split; [reflexivity |]. split; [reflexivity |].
  exact (date_token_without_digit "20240326164401:deadbeef" "date" "e"
           (fresh_validation false) eq_refl eq_refl eq_refl).
Defined.

Section FormatFacts.

Lemma apply_format_encoding (s : string) (v : sealValidation) (f : string) :
  signature_encoding (apply_format s v f)
    = if is_encoding f then f else signature_encoding v.
Proof.
  unfold apply_format, split_date.
  destruct (is_encoding f); cbn [signature with_signature_encoding];
    repeat case_match; reflexivity.
Qed.

Lemma apply_format_digest1 (s : string) (v : sealValidation) (f : string) :
  digest1 (apply_format s v f) = digest1 v.
Proof.
  unfold apply_format, split_date.
  destruct (is_encoding f); cbn [signature with_signature_encoding];
    repeat case_match; reflexivity.
Qed.

Lemma fold_formats_encoding (s : string) (formats : list string) (v : sealValidation) :
  signature_encoding (fold_left (apply_format s) formats v)
    = default (signature_encoding v) (Cover.last_encoding formats).
Proof.
  induction formats as [|f fs IH] using rev_ind; [reflexivity |].
  rewrite fold_left_app. cbn [fold_left]. rewrite apply_format_encoding.
  unfold Cover.last_encoding in *. rewrite filter_app, last_app.
  destruct (is_encoding f) eqn:Hf.
  - rewrite filter_cons_True by exact Hf. reflexivity.
  - rewrite filter_cons_False by congruence. cbn. exact IH.
Qed.

Lemma fold_formats_digest1 (s : string) (formats : list string) (v : sealValidation) :
  digest1 (fold_left (apply_format s) formats v) = digest1 v.
Proof.
  revert v. induction formats as [|f fs IH]; intros v; [reflexivity |].
  cbn [fold_left]. rewrite IH. apply apply_format_digest1.
Qed.

Lemma process_formats_digest1 (r : gmap string string) (s : string) (v : sealValidation) :
  digest1 (process_formats r s v) = digest1 v.
Proof.
  unfold process_formats. destruct (signature_formats r) as [|f fs]; [reflexivity |].
  rewrite fold_formats_digest1. reflexivity.
Qed.

End FormatFacts.

(** X10: the encoding under which the signature is decoded is the last token
    of [sf] that is one of [base64], [hex], [HEX], [bin]. It is [base64]
    when [sf] is absent or empty; when [sf] is there without such a token
    (as in [sf] set to [date]) the encoding is left as it was, so that a
    fresh pass decodes nothing. *)
Theorem encoding_is_the_last_named (r : gmap string string) (s : string)
    (v : sealValidation) :
  signature_encoding (process_formats r s v)
    = match r !! "sf" with
      | Some sf =>
          if JsString.truthy sf
          then default (signature_encoding v)
                 (Cover.last_encoding (JsString.split ":" sf))
          else "base64"
      | None => "base64"
      end.
Proof.
  unfold process_formats, signature_formats.
  destruct (r !! "sf") as [sf|]; [|reflexivity].
  destruct (JsString.truthy sf); [|reflexivity].
  destruct (JsString.split ":" sf) as [|f fs] eqn:Hsplit.
  - destruct sf as [|c sf]; [discriminate Hsplit |]. cbn [JsString.split] in Hsplit.
    destruct (JsString.eqc c ":"); [discriminate Hsplit |].
    destruct (JsString.split ":" sf); discriminate Hsplit.
  - rewrite fold_formats_encoding. reflexivity.
Qed.

Example encoding_examples :
  let enc sf := signature_encoding
                  (process_formats (<["sf" := sf]> ∅) "abcd" (fresh_validation false)) in
  enc "date3:hex" = "hex" /\ enc "hex:base64" = "base64" /\ enc "date" = EmptyString.
Proof. vm_compute. repeat split. Qed.

Section DoubleDigestFacts.

Variable hexToUint8Array : string -> js_error + bytes.
Variable base64ToUint8Array : string -> js_error + bytes.
Variable mergeBuffer : bytes -> bytes -> bytes.
Variable TextEncoder_encode : string -> bytes.

Local Abbreviation decode := (decode_signature hexToUint8Array base64ToUint8Array).
Local Abbreviation double := (doubleDigest hexToUint8Array base64ToUint8Array mergeBuffer
                                TextEncoder_encode).

Lemma decode_keeps (v v' : sealValidation) :
  decode v = inr v' ->
  digest1 v' = digest1 v /\ signature_date v' = signature_date v
  /\ signature v' = signature v /\ digest2 v' = digest2 v.
Proof.
  unfold decode_signature. intros Hdec.
  repeat case_match; simplify_eq; auto.
Qed.

(** X11: the promise of [doubleDigest] is settled when its executor ends,
    whatever the record. It resolves only for a record with a signature text
    and a validation with the first digest, and then [digest2] is the
    encoded prefix followed by [digest1]. It is rejected with the error of a
    missing signature, the error of a missing digest, or the exception of the
    decoder. *)
Theorem doubleDigest_outcome (r : gmap string string) (v : sealValidation) :
  match (double r v).2 with
  | Resolved _ =>
      is_truthy (r !! "s") = true
      /\ exists d, digest1 v = Some d
                   /\ digest2 (double r v).1
                      = Some (mergeBuffer (TextEncoder_encode (prepend r (double r v).1)) d)
  | Rejected e =>
      (is_truthy (r !! "s") = false /\ e = Cover.signature_missing)
      \/ (digest1 v = None /\ e = Cover.digest_missing)
      \/ (exists s, r !! "s" = Some s /\ decode (process_formats r s v) = inl e)
  | Pending => False
  end.
Proof.
  unfold doubleDigest.
  destruct (r !! "s") as [s|] eqn:Hs; cbn [is_truthy].
  - destruct (JsString.truthy s) eqn:Ht.
    + destruct (decode (process_formats r s v)) as [e|vd] eqn:Hdec.
      * cbn [snd]. right. right. eauto.
      * destruct (decode_keeps _ _ Hdec) as (Hd1 & _).
        rewrite process_formats_digest1 in Hd1.
        unfold build_digest2. rewrite Hd1.
        destruct (digest1 v) as [d|]; cbn.
        -- split; [reflexivity |]. exists d. split; reflexivity.
        -- right. left. split; reflexivity.
    + unfold build_digest2. destruct (digest1 v); cbn; left; split; reflexivity.
  - unfold build_digest2. destruct (digest1 v); cbn; left; split; reflexivity.
Qed.

End DoubleDigestFacts.

(** ** The stages of a pass, one after the other *)

Section StageFacts.

Variable assembleBuffer : asset -> list range -> bytes.
Variable subtle_digest : option string -> bytes -> js_error + bytes.
Variable algorithm_parameters : Type.
Variable CryptoKey : Type.
Variable getAlgorithmParameters :
  key_value -> option string -> option string -> algorithm_parameters.
Variable importCryptoKey : key_value -> algorithm_parameters -> js_error + CryptoKey.
Variable verifySignature :
  bytes -> bytes -> CryptoKey -> algorithm_parameters -> js_error + bool.
Variable getCryptoKeyLength : CryptoKey -> Z.
Variable hexToUint8Array : string -> js_error + bytes.
Variable base64ToUint8Array : string -> js_error + bytes.
Variable mergeBuffer : bytes -> bytes -> bytes.
Variable createDate_toISOString : string -> js_error + string.
Variable TextEncoder_encode : string -> bytes.

Local Abbreviation digest_stage := (run_digest assembleBuffer subtle_digest).
Local Abbreviation double_stage :=
  (run_doubleDigest hexToUint8Array base64ToUint8Array mergeBuffer TextEncoder_encode).
Local Abbreviation verify_stage :=
  (verify subtle_digest algorithm_parameters CryptoKey getAlgorithmParameters
     importCryptoKey verifySignature getCryptoKeyLength createDate_toISOString).
Local Abbreviation lawful :=
  (Cover.lawful algorithm_parameters CryptoKey verifySignature).
Local Abbreviation verified :=
  (Cover.verified algorithm_parameters CryptoKey verifySignature).

Lemma without_dns_app (evs1 evs2 : list event) :
  Cover.without_dns (evs1 ++ evs2) = Cover.without_dns evs1 && Cover.without_dns evs2.
Proof. unfold Cover.without_dns. apply forallb_app. Qed.

Lemma lawful_refl (w : world) : lawful w w.
Proof.
  split; [reflexivity |]. split; [|left; reflexivity].
  exists []. rewrite app_nil_r. split; reflexivity.
Qed.

Lemma lawful_trans (w1 w2 w3 : world) : lawful w1 w2 -> lawful w2 w3 -> lawful w1 w3.
Proof.
  intros (Hpk1 & (evs1 & Htr1 & Hq1) & Hp1) (Hpk2 & (evs2 & Htr2 & Hq2) & Hp2).
  split; [congruence |]. split.
  - exists (evs1 ++ evs2). rewrite Htr2, Htr1, <- app_assoc, without_dns_app, Hq1, Hq2.
    split; reflexivity.
  - destruct Hp2 as [Hsame|[Hrej|Hres]]; [|right; left; exact Hrej | right; right; exact Hres].
    rewrite Hsame. destruct Hp1 as [Hsame1|[Hrej1|(sm & Hsm & b & d2 & sb & k & p & Hv & Hb & Hin)]].
    + left. exact Hsame1.
    + right. left. exact Hrej1.
    + right. right. exists sm. split; [exact Hsm |].
      exists b, d2, sb, k, p. split; [exact Hv |]. split; [exact Hb |].
      rewrite Htr2. apply elem_of_app. left. exact Hin.
Qed.

(** Two programs in sequence. *)
Lemma lawful_bind {A B} (m : M A) (f : A -> M B) (w : world) :
  lawful w (m w).2 ->
  (forall x w', lawful w' (f x w').2) ->
  lawful w ((m ≫= f) w).2.
Proof.
  intros Hm Hf. unfold mbind, M_bind. destruct (m w) as [[x|h] w'] eqn:E; cbn [snd] in *.
  - apply (lawful_trans _ w'); [exact Hm | apply Hf].
  - exact Hm.
Qed.

Lemma digest_calls (a : asset) (r : gmap string string) (v : sealValidation) :
  Cover.without_dns (digest assembleBuffer subtle_digest a r v).2 = true.
Proof. unfold digest. repeat case_match; reflexivity. Qed.

Lemma is_valid_eq (b : bool) : bool_decide (Some b = Some true) = b.
Proof.
  destruct b; [apply bool_decide_eq_true_2 | apply bool_decide_eq_false_2]; congruence.
Qed.

Lemma digest_stage_lawful (a : asset) (w : world) : lawful w (digest_stage a w).2.
Proof.
  destruct w as [[pk rec val] [|sm0|e0] tr]; unfold run_digest; exec;
    destruct rec as [r|]; exec; try lawful_leaf;
    destruct val as [v|]; exec; try lawful_leaf;
    pose proof (digest_calls a r v) as Hcalls;
    destruct (digest assembleBuffer subtle_digest a r v) as [[v' [| |e]] calls];
    cbn [snd] in Hcalls; exec;
    (split; [reflexivity |];
     split;
     [ exists (Enter StDigest :: calls); split;
       [rewrite <- ?app_assoc; reflexivity | exact Hcalls]
     | first [left; reflexivity | right; left; eexists; reflexivity] ]).
Qed.

Lemma double_stage_lawful (w : world) : lawful w (double_stage w).2.
Proof.
  destruct w as [[pk rec val] [|sm0|e0] tr]; unfold run_doubleDigest; exec;
    destruct rec as [r|]; exec; try lawful_leaf;
    destruct val as [v|]; exec; try lawful_leaf;
    destruct (doubleDigest _ _ _ _ r v) as [v' [| |e]]; exec; lawful_leaf.
Qed.

Lemma verify_stage_lawful (a : asset) (w : world) : lawful w (verify_stage a w).2.
Proof.
  destruct w as [[pk rec val] [|sm0|e0] tr]; unfold verify, verbose_part;
    repeat (exec; rewrite ?is_valid_eq; try (case_match; simplify_eq)); lawful_leaf.
Qed.

(** The three stages that follow the key resolution. *)
Lemma stages_lawful (a : asset) (w : world) :
  lawful w ((digest_stage a;; double_stage;; verify_stage a) w).2.
Proof.
  apply lawful_bind; [apply digest_stage_lawful |]. intros _ w1.
  apply lawful_bind; [apply double_stage_lawful |]. intros _ w2.
  apply verify_stage_lawful.
Qed.

End StageFacts.

(** ** The pass as a whole *)

Lemma store_keys_unusable (domain : string) (recs : list txt_record)
    (pk : gmap string key_entry) :
  existsb Spec.usable recs = false -> store_keys domain recs pk = pk.
Proof.
  revert pk. induction recs as [|rec recs IH]; intros pk H; [reflexivity |].
  cbn [existsb] in H. apply orb_false_iff in H as [Hrec Hrecs].
  unfold store_keys in *. cbn [fold_left].
  assert (Hstep : store_key domain pk rec = pk).
  { unfold store_key. fold (Spec.usable rec). rewrite Hrec. reflexivity. }
  rewrite Hstep. apply IH, Hrecs.
Qed.

Section WholePass.

Variable readChunks : asset -> asset.
Variable assembleBuffer : asset -> list range -> bytes.
Variable getDNSTXTRecords : string -> string -> js_error + list txt_record.
Variable JSON_stringify : list txt_record -> string.
Variable subtle_digest : option string -> bytes -> js_error + bytes.
Variable algorithm_parameters : Type.
Variable CryptoKey : Type.
Variable getAlgorithmParameters :
  key_value -> option string -> option string -> algorithm_parameters.
Variable importCryptoKey : key_value -> algorithm_parameters -> js_error + CryptoKey.
Variable verifySignature :
  bytes -> bytes -> CryptoKey -> algorithm_parameters -> js_error + bool.
Variable getCryptoKeyLength : CryptoKey -> Z.
Variable hexToUint8Array : string -> js_error + bytes.
Variable base64ToUint8Array : string -> js_error + bytes.
Variable mergeBuffer : bytes -> bytes -> bytes.
Variable createDate_toISOString : string -> js_error + string.
Variable TextEncoder_encode : string -> bytes.

Local Abbreviation pass :=
  (validateSig readChunks assembleBuffer getDNSTXTRecords JSON_stringify subtle_digest
     algorithm_parameters CryptoKey getAlgorithmParameters importCryptoKey
     verifySignature getCryptoKeyLength hexToUint8Array base64ToUint8Array mergeBuffer
     createDate_toISOString TextEncoder_encode).
Local Abbreviation stages a :=
  (run_digest assembleBuffer subtle_digest a;;
   run_doubleDigest hexToUint8Array base64ToUint8Array mergeBuffer TextEncoder_encode;;
   verify subtle_digest algorithm_parameters CryptoKey getAlgorithmParameters
     importCryptoKey verifySignature getCryptoKeyLength createDate_toISOString a).
Local Abbreviation lawful :=
  (Cover.lawful algorithm_parameters CryptoKey verifySignature).
Local Abbreviation api := (doh_api (fresh_validation false)).

(** The pass when the key of the domain cannot be had. *)
Lemma pass_unresolved (a : asset) (verbose : bool) (s : SEAL) (sg : segment)
    (rest : list segment) :
  let r := Parser.normalise_da (Parser.extract (seg_string sg)) in
  let d := property_name (r !! "d") in
  seal_segments (readChunks a) = Some (sg :: rest) ->
  Parser.complete (Parser.extract (seg_string sg)) = true ->
  inherited d = false ->
  Spec.key_resolution getDNSTXTRecords s r api = None ->
  public_keys s !! d = None
  /\ match getDNSTXTRecords d api with
     | inl e =>
         pass a verbose s
           = (Halt Returned,
              mkWorld (mkSEAL (public_keys s) (Some r) (Some (fresh_validation verbose)))
                (Rejected (dns_failed r e)) [Enter StParse; DnsQuery d api])
     | inr recs =>
         store_keys d recs (public_keys s) !! d = None
         /\ pass a verbose s
            = (Halt Returned,
               mkWorld
                 (mkSEAL (store_keys d recs (public_keys s)) (Some r)
                    (Some (fresh_validation verbose)))
                 (Rejected (key_not_found JSON_stringify recs))
                 [Enter StParse; DnsQuery d api])
     end.
Proof.
  intros r d Hseg Hcomplete Hown Hkey.
  unfold Spec.key_resolution in Hkey. fold r d in Hkey.
  destruct (public_keys s !! d) as [e|] eqn:Hcached; [discriminate Hkey |].
  rewrite Hown in Hkey. split; [reflexivity |].
  unfold validateSig, validateSig_executor.
  rewrite Hseg, (parse_unfold _ _ _ Hseg), Hcomplete.
  unfold resolve_key. exec. fold r d. rewrite Hcached, Hown. exec.
  change (doh_api (fresh_validation verbose)) with api.
  destruct (getDNSTXTRecords d api) as [e|recs]; exec; [reflexivity |].
  destruct (store_keys d recs (public_keys s) !! d) as [e|] eqn:Hstored;
    [discriminate Hkey |].
  split; reflexivity.
Qed.

(** The pass on a record whose domain is named like an inherited property
    and is not stored: no query is made, and the stages run without an
    entry of the cache. *)
Lemma pass_inherited (a : asset) (verbose : bool) (s : SEAL) (sg : segment)
    (rest : list segment) :
  let r := Parser.normalise_da (Parser.extract (seg_string sg)) in
  let d := property_name (r !! "d") in
  seal_segments (readChunks a) = Some (sg :: rest) ->
  Parser.complete (Parser.extract (seg_string sg)) = true ->
  public_keys s !! d = None ->
  inherited d = true ->
  pass a verbose s
    = stages (set_seal_segments (Parser.adjust sg :: rest) (readChunks a))
        (mkWorld (mkSEAL (public_keys s) (Some r) (Some (fresh_validation verbose)))
           Pending [Enter StParse]).
Proof.
  intros r d Hseg Hcomplete Hmiss Hin. unfold validateSig, validateSig_executor.
  rewrite Hseg, (parse_unfold _ _ _ Hseg), Hcomplete.
  unfold resolve_key. exec. fold r d. rewrite Hmiss, Hin. reflexivity.
Qed.

(** X12: without a record segment the pass resolves at once with the
    informational result, having called nothing and changed nothing of the
    class; with a segment list that is empty, [parse] fails on its first
    line, the exception is lost and the promise stays pending. *)
Theorem pass_without_a_segment (a : asset) (verbose : bool) (s : SEAL) :
  (seal_segments (readChunks a) = None ->
   pass a verbose s = (Halt Returned, mkWorld s (Resolved no_signature_summary) []))
  /\ (seal_segments (readChunks a) = Some [] ->
      pass a verbose s
        = (Halt (Uncaught TypeError),
           mkWorld (mkSEAL (public_keys s) (record s) (Some (fresh_validation verbose)))
             Pending [Enter StParse])).
Proof.
  split; intros Hseg; unfold validateSig, validateSig_executor; rewrite Hseg.
  - destruct s. reflexivity.
  - unfold Parser.parse. rewrite Hseg. reflexivity.
Qed.

(** X13: when the domain of a complete record is neither cached nor named
    like a property every object inherits, and the DNS query fails, the pass
    ends there: the promise is rejected with [DNS_LOOKUP] and the message of
    the failure as its cause, the cache is as it was, and neither a digest
    nor a key import nor a verification was asked for. *)
Theorem dns_failure_ends_the_pass (a : asset) (verbose : bool) (s : SEAL) (sg : segment)
    (rest : list segment) (e : js_error) :
  let r := Parser.normalise_da (Parser.extract (seg_string sg)) in
  let d := property_name (r !! "d") in
  seal_segments (readChunks a) = Some (sg :: rest) ->
  Parser.complete (Parser.extract (seg_string sg)) = true ->
  public_keys s !! d = None ->
  inherited d = false ->
  getDNSTXTRecords d api = inl e ->
  pass a verbose s
    = (Halt Returned,
       mkWorld (mkSEAL (public_keys s) (Some r) (Some (fresh_validation verbose)))
         (Rejected (ValidationError DNS_LOOKUP
                      ("Querying DoH " +:+ d +:+ " DNS for a TXT record failed")
                      (Some (error_message e))))
         [Enter StParse; DnsQuery d api]).
Proof.
  intros r d Hseg Hcomplete Hmiss Hown Hdns.
  assert (Hkey : Spec.key_resolution getDNSTXTRecords s r api = None).
  { unfold Spec.key_resolution. fold r d. rewrite Hmiss, Hown, Hdns. reflexivity. }
  destruct (pass_unresolved a verbose s sg rest Hseg Hcomplete Hown Hkey) as [_ H].
  fold r d in H. rewrite Hdns in H. exact H.
Qed.

(** X14: when the domain of a complete record is neither cached nor named
    like a property every object inherits, and the DNS answers without any
    usable record (one with [ka], [seal] and [p] all non-empty), the pass
    ends with [DNS_LOOKUP], public key not found, the answer as its cause;
    nothing is stored in the cache and no cryptographic call is made. *)
Theorem answer_without_usable_record (a : asset) (verbose : bool) (s : SEAL)
    (sg : segment) (rest : list segment) (recs : list txt_record) :
  let r := Parser.normalise_da (Parser.extract (seg_string sg)) in
  let d := property_name (r !! "d") in
  seal_segments (readChunks a) = Some (sg :: rest) ->
  Parser.complete (Parser.extract (seg_string sg)) = true ->
  public_keys s !! d = None ->
  inherited d = false ->
  getDNSTXTRecords d api = inr recs ->
  existsb Spec.usable recs = false ->
  pass a verbose s
    = (Halt Returned,
       mkWorld (mkSEAL (public_keys s) (Some r) (Some (fresh_validation verbose)))
         (Rejected (ValidationError DNS_LOOKUP "Public key not found or corrupted"
                      (Some (JSON_stringify recs))))
         [Enter StParse; DnsQuery d api]).
Proof.
  intros r d Hseg Hcomplete Hmiss Hown Hdns Hnone.
  assert (Hkey : Spec.key_resolution getDNSTXTRecords s r api = None).
  { unfold Spec.key_resolution. fold r d.
    rewrite Hmiss, Hown, Hdns, (store_keys_unusable d recs _ Hnone), Hmiss.
    reflexivity. }
  destruct (pass_unresolved a verbose s sg rest Hseg Hcomplete Hown Hkey) as [_ H].
  fold r d in H. rewrite Hdns, (store_keys_unusable d recs _ Hnone) in H.
  exact (proj2 H).
Qed.

(** The world a pass leaves, for an asset with a segment, against the world
    in which the stages after the key resolution start. *)
Lemma pass_cases (a : asset) (verbose : bool) (s : SEAL) (sg : segment)
    (rest : list segment) :
  let r := Parser.normalise_da (Parser.extract (seg_string sg)) in
  let d := property_name (r !! "d") in
  seal_segments (readChunks a) = Some (sg :: rest) ->
  (w_promise (pass a verbose s).2 = Pending
   /\ public_keys (w_seal (pass a verbose s).2) = public_keys s
   /\ w_trace (pass a verbose s).2 = [Enter StParse])
  \/ ((exists e, w_promise (pass a verbose s).2 = Rejected e)
      /\ public_keys s !! d = None
      /\ (public_keys (w_seal (pass a verbose s).2) = public_keys s
          \/ exists recs, public_keys (w_seal (pass a verbose s).2)
                           = store_keys d recs (public_keys s))
      /\ w_trace (pass a verbose s).2 = [Enter StParse; DnsQuery d api])
  \/ (exists pk query,
        (Spec.key_resolution getDNSTXTRecords s r api = Some (pk, query)
         \/ (public_keys s !! d = None /\ pk = public_keys s /\ query = []))
        /\ lawful
             (mkWorld (mkSEAL pk (Some r) (Some (fresh_validation verbose)))
                Pending ([Enter StParse] ++ query))
             (pass a verbose s).2).
Proof.
  intros r d Hseg.
  destruct (Parser.complete (Parser.extract (seg_string sg))) eqn:Hcomplete.
  - destruct (Spec.key_resolution getDNSTXTRecords s r api) as [[pk query]|] eqn:Hkey.
    + right. right. exists pk, query. split; [left; reflexivity |].
      destruct (pass_resolved readChunks assembleBuffer getDNSTXTRecords JSON_stringify subtle_digest
                  algorithm_parameters CryptoKey getAlgorithmParameters importCryptoKey
                  verifySignature getCryptoKeyLength hexToUint8Array base64ToUint8Array
                  mergeBuffer createDate_toISOString TextEncoder_encode a verbose s sg rest pk query
                  Hseg Hcomplete Hkey) as [_ ->].
      apply stages_lawful.
    + destruct (inherited d) eqn:Hown.
      * assert (Hmiss : public_keys s !! d = None).
        { unfold Spec.key_resolution in Hkey. fold r d in Hkey.
          destruct (public_keys s !! d); [discriminate Hkey | reflexivity]. }
        right. right. exists (public_keys s), []. split; [right; auto |].
        rewrite (pass_inherited a verbose s sg rest Hseg Hcomplete Hmiss Hown).
        apply stages_lawful.
      * right. left.
        destruct (pass_unresolved a verbose s sg rest Hseg Hcomplete Hown Hkey)
          as [Hmiss H].
        fold r d in H, Hmiss.
        destruct (getDNSTXTRecords d api) as [e|recs].
        -- rewrite H. cbn. eauto 10.
        -- destruct H as [_ ->]. cbn. eauto 10.
  - left. rewrite (pass_incomplete readChunks assembleBuffer getDNSTXTRecords JSON_stringify subtle_digest
                  algorithm_parameters CryptoKey getAlgorithmParameters importCryptoKey
                  verifySignature getCryptoKeyLength hexToUint8Array base64ToUint8Array
                  mergeBuffer createDate_toISOString TextEncoder_encode a verbose s sg rest
                     Hseg Hcomplete).
    cbn. auto.
Qed.

(** X15: a pass on a record whose domain is cached makes no DNS query and
    leaves the key cache exactly as it found it, however the pass ends. *)
Theorem cached_domain_is_not_queried (a : asset) (verbose : bool) (s : SEAL)
    (sg : segment) (rest : list segment) (e : key_entry) :
  let r := Parser.normalise_da (Parser.extract (seg_string sg)) in
  seal_segments (readChunks a) = Some (sg :: rest) ->
  public_keys s !! property_name (r !! "d") = Some e ->
  public_keys (w_seal (pass a verbose s).2) = public_keys s
  /\ Cover.without_dns (w_trace (pass a verbose s).2) = true.
Proof.
  intros r Hseg Hhit.
  destruct (pass_cases a verbose s sg rest Hseg)
    as [(_ & Hpk & Htr)
       |[(_ & Hmiss & _)|(pk & query & [Hkey|(Hmiss & _)] & Hlaw)]].
  - rewrite Hpk, Htr. split; reflexivity.
  - fold r in Hmiss. congruence.
  - unfold Spec.key_resolution in Hkey. fold r in Hkey. rewrite Hhit in Hkey.
    injection Hkey as <- <-.
    destruct Hlaw as (Hpk & (evs & Htr & Hq) & _). cbn in Hpk, Htr.
    rewrite Hpk, Htr. split; [reflexivity | exact Hq].
  - fold r in Hmiss. congruence.
Qed.

(** X16: a pass changes the key cache at most at the domain of its record:
    the entry of every other domain is after the pass what it was before. *)
Theorem other_domains_are_untouched (a : asset) (verbose : bool) (s : SEAL)
    (sg : segment) (rest : list segment) (other : string) :
  let r := Parser.normalise_da (Parser.extract (seg_string sg)) in
  seal_segments (readChunks a) = Some (sg :: rest) ->
  other ≠ property_name (r !! "d") ->
  public_keys (w_seal (pass a verbose s).2) !! other = public_keys s !! other.
Proof.
  intros r Hseg Hother.
  destruct (pass_cases a verbose s sg rest Hseg)
    as [(_ & Hpk & _)
       |[(_ & _ & [Hpk|[recs Hpk]] & _)
        |(pk & query & [Hkey|(_ & -> & _)] & Hlaw)]].
  - rewrite Hpk. reflexivity.
  - rewrite Hpk. reflexivity.
  - rewrite Hpk. apply store_keys_other. exact Hother.
  - destruct Hlaw as (Hpk & _). cbn in Hpk. rewrite Hpk.
    unfold Spec.key_resolution in Hkey. fold r in Hkey.
    destruct (public_keys s !! property_name (r !! "d")).
    + injection Hkey as <- <-. reflexivity.
    + destruct (inherited _); [discriminate Hkey |].
      destruct (getDNSTXTRecords _ _) as [err|recs]; [discriminate Hkey |].
      destruct (store_keys _ recs _ !! _); [|discriminate Hkey].
      injection Hkey as <- <-. apply store_keys_other. exact Hother.
  - destruct Hlaw as (Hpk & _). cbn in Hpk. rewrite Hpk. reflexivity.
Qed.

(** X17: a pass never reports a verdict it did not get. When the promise of
    [validateSig] is resolved, either the asset had no record segment and the
    result is the informational one, or the result carries the very answer
    of a call of [verifySignature] that the pass made. *)
Theorem resolved_results_are_verified (a : asset) (verbose : bool) (s : SEAL)
    (sm : result_summary) :
  w_promise (pass a verbose s).2 = Resolved sm ->
  (seal_segments (readChunks a) = None /\ sm = no_signature_summary)
  \/ Cover.verified algorithm_parameters CryptoKey verifySignature sm
       (w_trace (pass a verbose s).2).
Proof.
  intros Hres.
  destruct (seal_segments (readChunks a)) as [[|sg rest]|] eqn:Hseg.
  - unfold validateSig, validateSig_executor, Parser.parse in Hres.
    rewrite Hseg in Hres. discriminate Hres.
  - right.
    destruct (pass_cases a verbose s sg rest Hseg)
      as [(Hp & _)|[([e Hp] & _)|(pk & query & _ & Hlaw)]]; [congruence.. |].
    destruct Hlaw as (_ & _ & [Hp|[[e Hp]|(sm' & Hp & Hv)]]); cbn in Hp; [congruence.. |].
    rewrite Hres in Hp. injection Hp as <-. exact Hv.
  - left. unfold validateSig, validateSig_executor in Hres. rewrite Hseg in Hres.
    destruct s. injection Hres as <-. split; reflexivity.
Qed.

End WholePass.

Local Abbreviation at_fixture T dns :=
  (T Fixture.read_chunks Fixture.assemble dns Fixture.stringify Fixture.digest_of
     unit string Fixture.parameters Fixture.import_key Fixture.verify_ok
     Fixture.key_length Fixture.decode Fixture.decode Fixture.merge Fixture.iso_date
     Fixture.text_bytes).

Lemma pass_without_a_segment_witness :
  Cover.pass_with Cover.dns_down Fixture.unsigned false Fixture.cached
    = (Halt Returned, mkWorld Fixture.cached (Resolved no_signature_summary) [])
  /\ Cover.pass_with Cover.dns_down Cover.no_segments true Fixture.cached
     = (Halt (Uncaught TypeError),
        mkWorld
          (mkSEAL (public_keys Fixture.cached) None (Some (fresh_validation true)))
          Pending [Enter StParse]).
Proof.
  split.
  - apply (proj1 (at_fixture pass_without_a_segment Cover.dns_down
                    Fixture.unsigned false Fixture.cached)).
    reflexivity.
  - apply (proj2 (at_fixture pass_without_a_segment Cover.dns_down
                    Cover.no_segments true Fixture.cached)).
    reflexivity.
Defined.

Lemma dns_failure_ends_the_pass_witness :
  let a := Fixture.with_range "F~S,s~f" in
  let r := Fixture.record_of a in
  let api := "https://mozilla.cloudflare-dns.com/dns-query" in
  let x := Cover.pass_with Cover.dns_down a false SEAL_initial in
  seal_segments (Fixture.read_chunks a) = Some [Fixture.segment_of a]
  /\ Parser.complete (Parser.extract (seg_string (Fixture.segment_of a))) = true
  /\ public_keys SEAL_initial !! property_name (r !! "d") = None
  /\ inherited (property_name (r !! "d")) = false
  /\ Cover.dns_down (property_name (r !! "d")) api = inl (Error "network unreachable")
  /\ w_promise x.2
     = Rejected (ValidationError DNS_LOOKUP
                   "Querying DoH example.com DNS for a TXT record failed"
                   (Some "network unreachable"))
  /\ public_keys (w_seal x.2) = ∅
  /\ w_trace x.2 = [Enter StParse; DnsQuery "example.com" api].
Proof.
  intros a r api x.
  assert (Hseg : seal_segments (Fixture.read_chunks a) = Some [Fixture.segment_of a])
    by reflexivity.
  assert (Hc : Parser.complete (Parser.extract (seg_string (Fixture.segment_of a))) = true)
    by (vm_compute; reflexivity).
  assert (Hmiss : public_keys SEAL_initial !! property_name (r !! "d") = None)
    by (vm_compute; reflexivity).
  assert (Hown : inherited (property_name (r !! "d")) = false)
    by (vm_compute; reflexivity).
  assert (Hdns : Cover.dns_down (property_name (r !! "d")) api
                 = inl (Error "network unreachable")) by reflexivity.
  split; [exact Hseg |]. split; [exact Hc |]. split; [exact Hmiss |].
  split; [exact Hown |]. split; [exact Hdns |].
  unfold x, Cover.pass_with.
  rewrite (at_fixture dns_failure_ends_the_pass Cover.dns_down a false SEAL_initial
             _ _ _ Hseg Hc Hmiss Hown Hdns).
  repeat split; vm_compute; reflexivity.
Defined.

Lemma answer_without_usable_record_witness :
  let a := Fixture.with_range "F~S,s~f" in
  let r := Fixture.record_of a in
  let api := "https://mozilla.cloudflare-dns.com/dns-query" in
  let recs := [mkTxt (Some "rsa") None (Some "KEY")] in
  let x := Cover.pass_with (Fixture.dns recs) a false SEAL_initial in
  seal_segments (Fixture.read_chunks a) = Some [Fixture.segment_of a]
  /\ Parser.complete (Parser.extract (seg_string (Fixture.segment_of a))) = true
  /\ public_keys SEAL_initial !! property_name (r !! "d") = None
  /\ inherited (property_name (r !! "d")) = false
  /\ Fixture.dns recs (property_name (r !! "d")) api = inr recs
  /\ existsb Spec.usable recs = false
  /\ w_promise x.2
     = Rejected (ValidationError DNS_LOOKUP "Public key not found or corrupted"
                   (Some "[]"))
  /\ public_keys (w_seal x.2) = ∅
  /\ w_trace x.2 = [Enter StParse; DnsQuery "example.com" api].
Proof.
  intros a r api recs x.
  assert (Hseg : seal_segments (Fixture.read_chunks a) = Some [Fixture.segment_of a])
    by reflexivity.
  assert (Hc : Parser.complete (Parser.extract (seg_string (Fixture.segment_of a))) = true)
    by (vm_compute; reflexivity).
  assert (Hmiss : public_keys SEAL_initial !! property_name (r !! "d") = None)
    by (vm_compute; reflexivity).
  assert (Hown : inherited (property_name (r !! "d")) = false)
    by (vm_compute; reflexivity).
  assert (Hdns : Fixture.dns recs (property_name (r !! "d")) api = inr recs)
    by reflexivity.
  assert (Hnone : existsb Spec.usable recs = false) by reflexivity.
  split; [exact Hseg |]. split; [exact Hc |]. split; [exact Hmiss |].
  split; [exact Hown |]. split; [exact Hdns |]. split; [exact Hnone |].
  unfold x, Cover.pass_with.
  rewrite (at_fixture answer_without_usable_record (Fixture.dns recs) a false
             SEAL_initial _ _ recs Hseg Hc Hmiss Hown Hdns Hnone).
  repeat split; vm_compute; reflexivity.
Defined.

Lemma cached_domain_is_not_queried_witness :
  let a := Fixture.with_range "F~S,s~f" in
  let r := Fixture.record_of a in
  let x := Cover.pass_with (Fixture.dns [Fixture.rsa_record "OTHER"]) a false
             Fixture.cached in
  seal_segments (Fixture.read_chunks a) = Some [Fixture.segment_of a]
  /\ public_keys Fixture.cached !! property_name (r !! "d")
     = Some (mkEntry (Some "KEY") None)
  /\ public_keys (w_seal x.2) = public_keys Fixture.cached
  /\ Cover.without_dns (w_trace x.2) = true.
Proof.
  intros a r x.
  assert (Hseg : seal_segments (Fixture.read_chunks a) = Some [Fixture.segment_of a])
    by reflexivity.
  assert (Hhit : public_keys Fixture.cached !! property_name (r !! "d")
                 = Some (mkEntry (Some "KEY") None)) by (vm_compute; reflexivity).
  split; [exact Hseg |]. split; [exact Hhit |].
  exact (at_fixture cached_domain_is_not_queried (Fixture.dns [Fixture.rsa_record "OTHER"])
           a false Fixture.cached _ _ _ Hseg Hhit).
Defined.

Lemma other_domains_are_untouched_witness :
  let a := Fixture.with_range "F~S,s~f" in
  let r := Fixture.record_of a in
  let x := Cover.pass_with (Fixture.dns [Fixture.rsa_record "KEY"]) a false
             SEAL_initial in
  seal_segments (Fixture.read_chunks a) = Some [Fixture.segment_of a]
  /\ "other.example" ≠ property_name (r !! "d")
  /\ public_keys (w_seal x.2) !! "other.example"
     = public_keys SEAL_initial !! "other.example".
Proof.
  intros a r x.
  assert (Hseg : seal_segments (Fixture.read_chunks a) = Some [Fixture.segment_of a])
    by reflexivity.
  assert (Hother : "other.example" ≠ property_name (r !! "d"))
    by (vm_compute; discriminate).
  split; [exact Hseg |]. split; [exact Hother |].
  exact (at_fixture other_domains_are_untouched (Fixture.dns [Fixture.rsa_record "KEY"])
           a false SEAL_initial _ _ "other.example" Hseg Hother).
Defined.

Lemma resolved_results_are_verified_witness :
  let a := Fixture.with_range "F~S,s~f" in
  let x := Cover.pass_with (Fixture.dns [Fixture.rsa_record "KEY"]) a false
             SEAL_initial in
  let sm := mkSummary "SEAL record #1 is valid." (Some true) (Some "photo.jpg")
              (Some "image/jpeg") None in
  w_promise x.2 = Resolved sm
  /\ ((seal_segments (Fixture.read_chunks a) = None /\ sm = no_signature_summary)
      \/ Cover.verified unit string Fixture.verify_ok sm (w_trace x.2)).
Proof.
  intros a x sm.
  assert (Hres : w_promise x.2 = Resolved sm) by (vm_compute; reflexivity).
  split; [exact Hres |].
  exact (at_fixture resolved_results_are_verified (Fixture.dns [Fixture.rsa_record "KEY"])
           a false SEAL_initial sm Hres).
Defined.

(** ** The verdict *)

Section VerdictFacts.

Variable subtle_digest : option string -> bytes -> js_error + bytes.
Variable algorithm_parameters : Type.
Variable CryptoKey : Type.
Variable getAlgorithmParameters :
  key_value -> option string -> option string -> algorithm_parameters.
Variable importCryptoKey : key_value -> algorithm_parameters -> js_error + CryptoKey.
Variable verifySignature :
  bytes -> bytes -> CryptoKey -> algorithm_parameters -> js_error + bool.
Variable getCryptoKeyLength : CryptoKey -> Z.
Variable createDate_toISOString : string -> js_error + string.

Local Abbreviation verify_stage :=
  (verify subtle_digest algorithm_parameters CryptoKey getAlgorithmParameters
     importCryptoKey verifySignature getCryptoKeyLength createDate_toISOString).

(** X18: when the key cannot be imported while the promise is still
    pending, the caller gets [KEY_IMPORT_ERROR] with the message of the
    failure as its cause. The stage goes on to reject a second time, for the
    missing parameters; that rejection is lost, and [verifySignature] is not
    called. *)
Theorem import_failure_is_the_rejection (a : asset) (w : world)
    (r : gmap string string) (entry : key_entry) (e : js_error) :
  let key := cached_key entry (r !! "ka") in
  record (w_seal w) = Some r ->
  public_keys (w_seal w) !! property_name (r !! "d") = Some entry ->
  w_promise w = Pending ->
  importCryptoKey key (getAlgorithmParameters key (r !! "da") (r !! "ka")) = inl e ->
  w_promise (verify_stage a w).2
    = Rejected (ValidationError KEY_IMPORT_ERROR
                  "crypto.subtle.importKey couldn't process the data"
                  (Some (error_message e)))
  /\ w_trace (verify_stage a w).2 = w_trace w ++ [ImportKey key].
Proof.
  intros key Hr Hhit Hp Himport. destruct w as [s p tr]. cbn in Hr, Hhit, Hp. subst p.
  unfold verify, stored_key. exec. rewrite Hr. exec. rewrite Hhit. exec. fold key.
  rewrite Himport. exec.
  destruct (validation s) as [v|]; exec; [|split; reflexivity].
  destruct (digest2 v), (is_truthy (signature v)); exec; split; reflexivity.
Qed.

(** X19: the verdict of a pass that is not verbose. With the key imported,
    the second digest and a signature at hand and the promise still pending,
    the stage calls [verifySignature] once, on the second digest and the
    signature bytes. Its answer is the verdict: the promise resolves with
    [valid] equal to the answer, the message that goes with it, the name
    and the mime type of the asset, and no report. When the call fails the
    caller gets [SIGNATURE_VERIFY_ERROR]; the result that the stage still
    builds, one that says not valid, is lost. *)
Theorem verdict_is_the_answer (a : asset) (w : world) (r : gmap string string)
    (entry : key_entry) (v : sealValidation) (d2 : bytes) (k : CryptoKey) :
  let key := cached_key entry (r !! "ka") in
  let p := getAlgorithmParameters key (r !! "da") (r !! "ka") in
  record (w_seal w) = Some r ->
  validation (w_seal w) = Some v ->
  public_keys (w_seal w) !! property_name (r !! "d") = Some entry ->
  w_promise w = Pending ->
  importCryptoKey key p = inr k ->
  digest2 v = Some d2 ->
  is_truthy (signature v) = true ->
  verbose v = false ->
  w_promise (verify_stage a w).2
    = match verifySignature d2 (signature_bytes v) k p with
      | inr b =>
          Resolved (mkSummary
                      (if b then "SEAL record #1 is valid."
                       else "SEAL record #1 is NOT valid.")
                      (Some b) (Some (asset_name a)) (Some (asset_mime a)) None)
      | inl e =>
          Rejected (ValidationError SIGNATURE_VERIFY_ERROR
                      "The signature can not be verified" (Some (error_message e)))
      end
  /\ w_trace (verify_stage a w).2
     = w_trace w ++ [ImportKey key; VerifySignature d2 (signature_bytes v)]
  /\ w_seal (verify_stage a w).2 = w_seal w.
Proof.
  intros key p Hr Hv Hhit Hp Himport Hd2 Hsig Hquiet.
  destruct w as [s pr tr]. cbn in Hr, Hv, Hhit, Hp. subst pr.
  unfold verify, stored_key. exec. rewrite Hr. exec. rewrite Hhit. exec.
  fold key. fold p.
  rewrite Himport. exec. rewrite Hv. exec. rewrite Hd2, Hsig. exec.
  destruct (verifySignature d2 (signature_bytes v) k p) as [e|b]; exec;
    rewrite Hquiet; exec; rewrite <- ?app_assoc.
  - repeat split; reflexivity.
  - rewrite is_valid_eq. destruct b; repeat split; reflexivity.
Qed.

End VerdictFacts.

Lemma import_failure_is_the_rejection_witness :
  let a := Fixture.with_range "F~S,s~f" in
  let r := Fixture.record_of a in
  let entry := mkEntry None (Some "EC KEY") in
  let w := mkWorld
             (mkSEAL (<["example.com" := entry]> ∅) (Some r)
                (Some (fresh_validation false)))
             Pending [] in
  let x := verify Fixture.digest_of unit string Fixture.parameters Fixture.import_key
             Fixture.verify_ok Fixture.key_length Fixture.iso_date a w in
  public_keys (w_seal w) !! property_name (r !! "d") = Some entry
  /\ Fixture.import_key (cached_key entry (r !! "ka"))
       (Fixture.parameters (cached_key entry (r !! "ka")) (r !! "da") (r !! "ka"))
     = inl (Error "no key")
  /\ w_promise x.2
     = Rejected (ValidationError KEY_IMPORT_ERROR
                   "crypto.subtle.importKey couldn't process the data" (Some "no key"))
  /\ w_trace x.2 = [ImportKey (Stored None)].
Proof.
  intros a r entry w x.
  assert (Hhit : public_keys (w_seal w) !! property_name (r !! "d") = Some entry)
    by (vm_compute; reflexivity).
  assert (Himport : Fixture.import_key (cached_key entry (r !! "ka"))
                      (Fixture.parameters (cached_key entry (r !! "ka")) (r !! "da")
                         (r !! "ka"))
                    = inl (Error "no key")) by (vm_compute; reflexivity).
  split; [exact Hhit |]. split; [exact Himport |].
  destruct (import_failure_is_the_rejection Fixture.digest_of unit string
              Fixture.parameters Fixture.import_key Fixture.verify_ok Fixture.key_length
              Fixture.iso_date a w r entry (Error "no key") eq_refl Hhit eq_refl Himport)
    as [Hp Htr].
  unfold x. rewrite Hp, Htr. split; vm_compute; reflexivity.
Defined.

Lemma verdict_is_the_answer_witness :
  let a := Fixture.with_range "F~S,s~f" in
  let r := Fixture.record_of a in
  let entry := mkEntry (Some "KEY") None in
  let v := with_digest2 (Some (Fixture.text_bytes "d2"))
             (with_signature (Some "abcd") (fresh_validation false)) in
  let w := mkWorld (mkSEAL (<["example.com" := entry]> ∅) (Some r) (Some v)) Pending [] in
  let x := verify Fixture.digest_of unit string Fixture.parameters Fixture.import_key
             Fixture.verify_ok Fixture.key_length Fixture.iso_date a w in
  public_keys (w_seal w) !! property_name (r !! "d") = Some entry
  /\ Fixture.import_key (cached_key entry (r !! "ka"))
       (Fixture.parameters (cached_key entry (r !! "ka")) (r !! "da") (r !! "ka"))
     = inr "KEY"
  /\ w_promise x.2
     = Resolved (mkSummary "SEAL record #1 is valid." (Some true) (Some "photo.jpg")
                   (Some "image/jpeg") None)
  /\ w_trace x.2 = [ImportKey (Stored (Some "KEY")); VerifySignature (Fixture.text_bytes "d2") []].
Proof.
  intros a r entry v w x.
  assert (Hhit : public_keys (w_seal w) !! property_name (r !! "d") = Some entry)
    by (vm_compute; reflexivity).
  assert (Himport : Fixture.import_key (cached_key entry (r !! "ka"))
                      (Fixture.parameters (cached_key entry (r !! "ka")) (r !! "da")
                         (r !! "ka"))
                    = inr "KEY") by (vm_compute; reflexivity).
  split; [exact Hhit |]. split; [exact Himport |].
  destruct (verdict_is_the_answer Fixture.digest_of unit string Fixture.parameters
              Fixture.import_key Fixture.verify_ok Fixture.key_length Fixture.iso_date
              a w r entry v (Fixture.text_bytes "d2") "KEY"
              eq_refl eq_refl Hhit eq_refl Himport eq_refl eq_refl eq_refl)
    as (Hp & Htr & _).
  unfold x. rewrite Hp, Htr. split; vm_compute; reflexivity.
Defined.
